(** * Marginal message passing ([pymdp/core/algos/mmp_v2.py])

    A shallow embedding of [run_mmp_v2] and the properties its
    specification states about it.

    Modelling conventions.
    - float64 values are real numbers ([R]): arithmetic is exact, rounding
      and non-finite values are outside the model.  [ln] is total on [R]
      where [np.log] yields [nan] or [-inf]; the two agree on positive
      arguments, which is what the floor [1e-16] gives every logarithm of
      a call on non-negative likelihoods, priors and transitions.
    - dense numpy arrays are a shape together with an indexing function
      (matrices, 3-d transition arrays, likelihood tensors); 1-d arrays are
      lists; object arrays ([qs_seq], [prior], [B], [ll_seq]) are lists.
    - action entries are rationals ([Q]): every finite float is one, and
      [int()] is truncation toward zero.
    - Python exceptions are the [Raise] results of an error monad.  The
      model raises [IndexError] where the code indexes with a value that
      comes from the caller (an action, a row or column of the policy),
      [OverflowError] where such a value does not fit the 64-bit integer
      numpy converts an index to, and [ValueError] where array
      construction rejects its shapes ([obj_array] of a negative length,
      [np.vstack] of different widths, a slice assignment of another
      shape).  Elementwise operations on vectors assume equal lengths, as
      the predicate [WellShaped] states.
    - the helpers imported from [pymdp.core.maths] are defined outside
      [mmp_v2.py]; the algorithm is parametric in them (class [Maths]) and
      [spec_maths] implements them as the specification describes them. *)

From Stdlib Require Import Reals Lra Lia ZArith QArith Wf_nat.
From stdpp Require Import base list.

(** ** numpy: vectors, matrices, arrays *)

Module Np.
Local Open Scope R_scope.

(** A 1-d float array. *)
Abbreviation vec := (list R).

#[global] Instance R_inhabited : Inhabited R := populate 0.

(** The additive floor before every logarithm. *)
Definition eps : R := 1e-16.

Definition sum (v : vec) : R := foldr Rplus 0 v.

(** [sum_{j < n} g j] *)
Definition big_sum (n : nat) (g : nat -> R) : R := sum (g <$> seq 0 n).

Definition zeros (n : nat) : vec := replicate n 0.

(** [np.ones(n) / n] *)
Definition ones_div (n : nat) : vec := replicate n (1 / INR n).

(** [np.log(v + 1e-16)] *)
Definition log_floor (v : vec) : vec := (fun x => ln (x + eps)) <$> v.

Definition add (u v : vec) : vec := zip_with Rplus u v.
Definition sub (u v : vec) : vec := zip_with Rminus u v.
Definition scale (c : R) (v : vec) : vec := Rmult c <$> v.
Definition div_scalar (v : vec) (c : R) : vec := (fun x => x / c) <$> v.
Definition shift (v : vec) (c : R) : vec := (fun x => x - c) <$> v.
Definition dot (u v : vec) : R := sum (zip_with Rmult u v).
Definition mean (v : vec) : R := sum v / INR (length v).

(** A 2-d float array. *)
Record matrix := Matrix {
  m_rows : nat;
  m_cols : nat;
  m_at : nat -> nat -> R
}.

(** [M.T] *)
Definition transpose (M : matrix) : matrix :=
  {| m_rows := m_cols M; m_cols := m_rows M; m_at := fun i j => m_at M j i |}.

(** [M.dot(q)] for a 1-d [q] *)
Definition mdot (M : matrix) (q : vec) : vec :=
  (fun i => big_sum (m_cols M) (fun j => m_at M i j * q !!! j)) <$> seq 0 (m_rows M).

(** A 3-d float array, [B[f]] with axes (next state, state, action). *)
Record ndarray3 := Ndarray3 {
  shape0 : nat;
  shape1 : nat;
  shape2 : nat;
  at3 : nat -> nat -> nat -> R
}.

(** [np.zeros_like(T)] *)
Definition zeros_like (T : ndarray3) : ndarray3 :=
  {| shape0 := shape0 T; shape1 := shape1 T; shape2 := shape2 T;
     at3 := fun _ _ _ => 0 |}.

(** [T[:, :, u]] for an in-range [u] *)
Definition slice (T : ndarray3) (u : nat) : matrix :=
  {| m_rows := shape0 T; m_cols := shape1 T; m_at := fun i j => at3 T i j u |}.

(** An n-d float array, one entry of [ll_seq]. *)
Record tensor := Tensor {
  t_shape : list nat;
  t_at : list nat -> R
}.

#[global] Instance tensor_inhabited : Inhabited tensor :=
  populate {| t_shape := []; t_at := fun _ => 0 |}.

#[global] Instance ndarray3_inhabited : Inhabited ndarray3 :=
  populate {| shape0 := 0; shape1 := 0; shape2 := 0; at3 := fun _ _ _ => 0 |}.

(** [np.log(X + 1e-16)] on a tensor *)
Definition tlog_floor (X : tensor) : tensor :=
  {| t_shape := t_shape X; t_at := fun idx => ln (t_at X idx + eps) |}.

(** A 2-d array of action entries: [policy], [prev_actions]. *)
Record actions := Actions {
  a_cols : nat;
  a_rows : list (list Q)
}.

(** [np.zeros((n, c))] *)
Definition azeros (n c : nat) : actions :=
  {| a_cols := c; a_rows := replicate n (replicate c 0%Q) |}.
End Np.
Import Np.

(** ** Exceptions *)

Inductive exn := IndexError | ValueError | OverflowError.

Inductive result (A : Type) : Type :=
| Ok (a : A)
| Raise (e : exn).
Arguments Ok {A} a.
Arguments Raise {A} e.

#[global] Instance result_ret : MRet result := fun _ a => Ok a.
#[global] Instance result_bind : MBind result := fun _ _ k m =>
  match m with Ok a => k a | Raise e => Raise e end.

Definition is_ok {A} (r : result A) : bool :=
  match r with Ok _ => true | Raise _ => false end.

(** [for x in xs: s = body(x, s)] *)
Fixpoint for_each {X S : Type} (xs : list X) (body : X -> S -> result S) (s : S)
  : result S :=
  match xs with
  | [] => Ok s
  | x :: xs' => s' ← body x s; for_each xs' body s'
  end.

(** [for i in range(n)] *)
Definition for_range {S : Type} (n : nat) (body : nat -> S -> result S) (s : S)
  : result S :=
  for_each (seq 0 n) body s.

(** The states a loop goes through, one after each pass of its body. *)
Fixpoint for_each_states {X S : Type} (xs : list X) (body : X -> S -> result S)
  (s : S) : result (list S) :=
  match xs with
  | [] => Ok []
  | x :: xs' => s' ← body x s; rest ← for_each_states xs' body s'; Ok (s' :: rest)
  end.

(** The (iteration, timestep) pairs in the order the nested loops visit them. *)
Definition traversal (num_iter infer_len : nat) : list (nat * nat) :=
  itr ← seq 0 num_iter; pair itr <$> seq 0 infer_len.

(** ** Indexing *)

(** [int(x)]: truncation toward zero. *)
Definition int_trunc (x : Q) : Z := Z.quot (Qnum x) (Z.pos (Qden x)).

(** The integers of numpy's index type [intp], 64 bits wide. *)
Definition fits_intp (k : Z) : Prop := (- (2 ^ 63) <= k < 2 ^ 63)%Z.

#[global] Instance fits_intp_dec (k : Z) : Decision (fits_intp k).
Proof. unfold fits_intp. apply _. Defined.

(** What indexing an axis with an integer [k] outside its range raises:
    [IndexError] (index out of bounds), unless [k] cannot be converted to
    the index type at all, which is an [OverflowError]. *)
Definition out_of_range (k : Z) : exn :=
  if decide (fits_intp k) then IndexError else OverflowError.

(** An index [k] into an axis of length [n]: numpy counts a negative index
    from the end and raises outside [-n, n).  No axis is longer than the
    index type allows, so that every [k] in [-n, n) fits it. *)
Definition axis_index (n : nat) (k : Z) : result nat :=
  if decide (0 <= k < Z.of_nat n)%Z then Ok (Z.to_nat k)
  else if decide (- Z.of_nat n <= k < 0)%Z then Ok (Z.to_nat (k + Z.of_nat n))
  else Raise (out_of_range k).

(** [T[:, :, k]] *)
Definition slice_action (T : ndarray3) (k : Z) : result matrix :=
  u ← axis_index (shape2 T) k; Ok (slice T u).

(** [P[t, f]] for non-negative [t] and [f] *)
Definition policy_at (P : actions) (t f : nat) : result Q :=
  match a_rows P !! t with
  | Some row =>
      if decide (f < a_cols P) then
        match row !! f with Some a => Ok a | None => Raise IndexError end
      else Raise IndexError
  | None => Raise IndexError
  end.

(** [np.vstack((P1, P2))] *)
Definition vstack (P1 P2 : actions) : result actions :=
  if decide (a_cols P1 = a_cols P2)
  then Ok {| a_cols := a_cols P2; a_rows := a_rows P1 ++ a_rows P2 |}
  else Raise ValueError.

(** [T[:, :, u] = M] for [u] in range: the shapes have to agree. *)
Definition assign_slice (T : ndarray3) (u : nat) (M : matrix) : result ndarray3 :=
  if decide (m_rows M = shape0 T /\ m_cols M = shape1 T)
  then Ok {| shape0 := shape0 T; shape1 := shape1 T; shape2 := shape2 T;
             at3 := fun i j u' => if decide (u' = u) then m_at M i j else at3 T i j u' |}
  else Raise ValueError.

(** ** The helpers of [pymdp.core.maths]

    [run_mmp_v2] imports four functions and uses them as black boxes. *)

Class Maths := {
  (** [spm_dot(X, qs, [f])]: contract [X] with the beliefs of every factor
      but [f]. *)
  spm_dot : tensor -> list vec -> nat -> vec;
  (** [spm_norm(M)] *)
  spm_norm : matrix -> matrix;
  (** [softmax(v)] *)
  softmax : vec -> vec;
  (** [calc_free_energy(qs, prior, n_factors, likelihood)], with [None] for
      an absent likelihood. *)
  calc_free_energy : list vec -> list vec -> nat -> option tensor -> R
}.

(** Modelled from the spec: [get_model_dimensions] is defined in
    [pymdp.core.utils], outside [mmp_v2.py].  Factor [f] has as many states as the
    first axis of [B[f]] is long, and there are as many factors as [B] has
    entries; whether [A] agrees with that is not modelled. *)
Definition get_model_dimensions (A : list tensor) (B : list ndarray3)
  : list nat * nat :=
  (shape0 <$> B, length B).

(** ** The state of one call *)

(** What the call fixes before its loops start. *)
Record env := Env {
  past_len : nat;
  future_len : nat;
  infer_len : Z;
  future_cutoff : Z;
  num_states : list nat;
  num_factors : nat;
  B : list ndarray3;
  trans_B : list ndarray3;
  qs_T : list vec;
  prior : list vec;
  ll_seq : list tensor;
  policy : actions;
  grad_descent : bool;
  tau : R
}.

(** What the loops change. *)
Record state := State {
  qs_seq : list (list vec);
  F : R
}.

(** [qs_seq[t][f] = v] *)
Definition write (qs : list (list vec)) (t f : nat) (v : vec) : list (list vec) :=
  <[t := <[f := v]> (qs !!! t)]> qs.

Section Algorithm.
Context `{Maths}.

(** *** Window and preprocessing (lines 22-70) *)

Definition window (past_len future_len : nat) (last_timestep : bool) : Z * Z :=
  let infer_len :=
    if last_timestep
    then (Z.of_nat past_len + Z.of_nat future_len - 1)%Z
    else (Z.of_nat past_len + Z.of_nat future_len)%Z in
  let future_cutoff := (Z.of_nat past_len + Z.of_nat future_len - 2)%Z in
  (infer_len, future_cutoff).

(** The initial beliefs: [np.ones(num_states[f]) / num_states[f]] for
    every timestep and factor. *)
Definition initial_beliefs (infer_len : nat) (num_states : list nat)
  : list (list vec) :=
  replicate infer_len (ones_div <$> num_states).

(** [trans_B[f]]: every action slice of [B[f]], transposed and normalised. *)
Definition transposed_transition (Bf : ndarray3) : result ndarray3 :=
  for_range (shape2 Bf)
    (fun u T => assign_slice T u (spm_norm (transpose (slice Bf u))))
    (zeros_like Bf).

Fixpoint transposed_transitions (B : list ndarray3) : result (list ndarray3) :=
  match B with
  | [] => Ok []
  | Bf :: B' =>
      T ← transposed_transition Bf;
      Ts ← transposed_transitions B';
      Ok (T :: Ts)
  end.

Definition preprocess (A : list tensor) (B : list ndarray3) (ll_seq : list tensor)
  (policy : actions) (prev_actions : option actions) (prior : option (list vec))
  (grad_descent : bool) (tau : R) (last_timestep : bool) : result env :=
  let past_len := length ll_seq in
  let future_len := length (a_rows policy) in
  let '(infer_len, future_cutoff) := window past_len future_len last_timestep in
  let '(num_states, num_factors) := get_model_dimensions A B in
  if decide (infer_len < 0)%Z then Raise ValueError else
  let qs_T := zeros <$> num_states in
  let prior :=
    match prior with
    | Some p => p
    | None => ones_div <$> num_states
    end in
  trans_B ← transposed_transitions B;
  let prev_actions :=
    match prev_actions with
    | Some p => p
    | None => azeros past_len (a_cols policy)
    end in
  policy ← vstack prev_actions policy;
  Ok {| past_len := past_len; future_len := future_len;
        infer_len := infer_len; future_cutoff := future_cutoff;
        num_states := num_states; num_factors := num_factors;
        B := B; trans_B := trans_B; qs_T := qs_T; prior := prior;
        ll_seq := ll_seq; policy := policy;
        grad_descent := grad_descent; tau := tau |}.

Definition initial_state (e : env) : state :=
  {| qs_seq := initial_beliefs (Z.to_nat (infer_len e)) (num_states e); F := 0%R |}.

(** *** The three messages (lines 75-93) *)

Definition likelihood_message (e : env) (t f : nat) (qs : list (list vec)) : vec :=
  if decide (t < past_len e)
  then log_floor (spm_dot (ll_seq e !!! t) (qs !!! t) f)
  else zeros (num_states e !!! f).

(** The message from the predecessor belief (lines 85-86). *)
Definition predecessor_message (e : env) (t f : nat) (qs : list (list vec))
  : result vec :=
  a ← policy_at (policy e) (t - 1) f;
  M ← slice_action (B e !!! f) (int_trunc a);
  Ok (log_floor (mdot M ((qs !!! (t - 1)) !!! f))).

Definition past_message (e : env) (t f : nat) (qs : list (list vec)) : result vec :=
  if decide (t = 0)
  then Ok (log_floor (prior e !!! f))
  else predecessor_message e t f qs.

(** The message from the successor belief (lines 92-93). *)
Definition successor_message (e : env) (t f : nat) (qs : list (list vec))
  : result vec :=
  a ← policy_at (policy e) t f;
  M ← slice_action (trans_B e !!! f) (int_trunc a);
  Ok (log_floor (mdot M ((qs !!! (t + 1)) !!! f))).

Definition future_message (e : env) (t f : nat) (qs : list (list vec)) : result vec :=
  if decide (future_cutoff e <= Z.of_nat t)%Z
  then Ok (qs_T e !!! f)
  else successor_message e t f qs.

(** *** One pass of the factor loop (lines 74-109) *)

Definition visit (e : env) (t f : nat) (st : state) : result state :=
  let qs := qs_seq st in
  let lnA := likelihood_message e t f qs in
  lnB_past ← past_message e t f qs;
  lnB_future ← future_message e t f qs;
  if grad_descent e then
    let lnqs := log_floor ((qs !!! t) !!! f) in
    let coeff := if decide (future_cutoff e <= Z.of_nat t)%Z then 1%R else 2%R in
    let err := sub (add (add (scale coeff lnA) lnB_past) lnB_future) (scale coeff lnqs) in
    let err := shift err (mean err) in
    let lnqs := add lnqs (scale (tau e) err) in
    let qs := write qs t f (softmax lnqs) in
    if decide (t = 0 \/ Z.of_nat t = (infer_len e - 1)%Z)
    then Ok {| qs_seq := qs; F := (F st + 0.5 * dot lnqs (scale 0.5 err))%R |}
    else Ok {| qs_seq := qs;
               F := (F st + dot lnqs (scale 0.5
                       (sub err (div_scalar
                                   (scale (IZR (Z.of_nat (num_factors e) - 1)) lnA)
                                   (IZR (Z.of_nat (num_factors e)))))))%R |}
  else
    Ok {| qs_seq := write qs t f (softmax (add (add lnA lnB_past) lnB_future));
          F := F st |}.

(** *** One pass of the timestep loop (lines 73-115) *)

(** The likelihood handed to [calc_free_energy] at timestep [t]. *)
Definition accuracy_term (e : env) (t : nat) : option tensor :=
  if decide (t < past_len e) then Some (tlog_floor (ll_seq e !!! t)) else None.

(** The value line 113 or 115 adds to [F] in state [st]. *)
Definition free_energy_at (e : env) (t : nat) (st : state) : R :=
  calc_free_energy (qs_seq st !!! t) (prior e) (num_factors e) (accuracy_term e t).

Definition timestep (e : env) (t : nat) (st : state) : result state :=
  st ← for_range (num_factors e) (visit e t) st;
  if grad_descent e then Ok st
  else Ok {| qs_seq := qs_seq st; F := (F st + free_energy_at e t st)%R |}.

(** *** The outer loop (lines 72-117) *)

Definition sweep (e : env) (itr : nat) (st : state) : result state :=
  for_range (Z.to_nat (infer_len e)) (timestep e) st.

Definition run_mmp_v2 (A : list tensor) (B : list ndarray3) (ll_seq : list tensor)
  (policy : actions) (prev_actions : option actions) (prior : option (list vec))
  (num_iter : nat) (grad_descent : bool) (tau : R) (last_timestep : bool)
  : result (list (list vec) * R) :=
  e ← preprocess A B ll_seq policy prev_actions prior grad_descent tau last_timestep;
  st ← for_range num_iter (sweep e) (initial_state e);
  Ok (qs_seq st, F st).
End Algorithm.

(** ** The helpers as the specification describes them *)

Module SpecMaths.
Local Open Scope R_scope.

(** [contract shape g f i qs X idx]: the sum, over the axes [g, g+1, ...]
    of lengths [shape], of [X] at the index that extends [idx], each
    axis weighted by the belief of its factor; the axis of factor [f] is
    not summed but held at [i]. *)
Fixpoint contract (shape : list nat) (g f i : nat) (qs : list vec)
  (X : list nat -> R) (idx : list nat) : R :=
  match shape with
  | [] => X idx
  | n :: shape' =>
      if decide (g = f)
      then contract shape' (S g) f i qs X (idx ++ [i])
      else big_sum n (fun k =>
             ((qs !!! g) !!! k) * contract shape' (S g) f i qs X (idx ++ [k]))
  end.

(** Modelled from the spec: [spm_dot] is defined in [pymdp.core.maths],
    outside [mmp_v2.py].  "Marginalize [ll_seq[t]] against the
    current joint belief over all other factors, projecting onto factor
    [f]". *)
Definition spm_dot (X : tensor) (qs : list vec) (f : nat) : vec :=
  (fun i => contract (t_shape X) 0 f i qs (t_at X) []) <$> seq 0 (t_shape X !!! f).

(** The contraction of [X] with the beliefs of all factors. *)
Definition expectation (X : tensor) (qs : list vec) : R :=
  contract (t_shape X) 0 (length (t_shape X)) 0 qs (t_at X) [].

(** Modelled from the spec: [spm_norm] is defined in [pymdp.core.maths],
    outside [mmp_v2.py].  [trans_B[f][:, :, u]] is "the
    row-normalized transpose of [B[f][:, :, u]] (each row sums to 1)",
    and the code obtains it as [spm_norm] of the transpose. *)
Definition spm_norm (M : matrix) : matrix :=
  {| m_rows := m_rows M; m_cols := m_cols M;
     m_at := fun i j => m_at M i j / big_sum (m_cols M) (m_at M i) |}.

(** "a normalization primitive producing a valid probability vector" *)
Definition normalize (v : vec) : vec := div_scalar v (sum v).

(** Modelled from the spec: [softmax] is defined in [pymdp.core.maths],
    outside [mmp_v2.py].  "[normalize(exp(x))] (softmax over the
    factor's state axis)". *)
Definition softmax (v : vec) : vec := normalize (exp <$> v).

(** The divergence of a belief from a prior, [sum_i q_i (ln q_i - ln p_i)]. *)
Definition kl (q p : vec) : R :=
  sum (zip_with (fun x y => x * (ln x - ln y)) q p).

(** Modelled from the spec: [calc_free_energy] is defined in
    [pymdp.core.maths], outside [mmp_v2.py].  "The variational free energy of
    the joint belief against [prior], summed over factors (complexity
    term), plus the expected log-likelihood term (accuracy term)" when a
    likelihood is passed. *)
Definition calc_free_energy (qs prior : list vec) (n_factors : nat)
  (likelihood : option tensor) : R :=
  big_sum n_factors (fun f => kl (qs !!! f) (prior !!! f)) +
  match likelihood with
  | Some L => expectation L qs
  | None => 0
  end.
End SpecMaths.

#[global] Instance spec_maths : Maths := {|
  spm_dot := SpecMaths.spm_dot;
  spm_norm := SpecMaths.spm_norm;
  softmax := SpecMaths.softmax;
  calc_free_energy := SpecMaths.calc_free_energy
|}.

(** ** Calls the model is faithful for *)

(** The shapes a call has to agree on: [numpy] rejects, or silently
    broadcasts, the others. *)
Record WellShaped (B : list ndarray3) (ll_seq : list tensor) (policy : actions)
  (prev_actions : option actions) (prior : option (list vec)) : Prop := {
  ws_square : Forall (fun Bf => shape0 Bf = shape1 Bf) B;
  ws_ll_seq : Forall (fun X => t_shape X = shape0 <$> B) ll_seq;
  ws_policy_cols : a_cols policy = length B;
  ws_policy_rows : Forall (fun row => length row = a_cols policy) (a_rows policy);
  ws_prev :
    match prev_actions with
    | Some P =>
        a_cols P = length B /\ length (a_rows P) = length ll_seq /\
        Forall (fun row => length row = a_cols P) (a_rows P)
    | None => True
    end;
  ws_prior :
    match prior with
    | Some p => length <$> p = shape0 <$> B
    | None => True
    end
}.

(** An integer that indexes an axis of length [n] without raising. *)
Definition valid_index (n : nat) (k : Z) : Prop :=
  (- Z.of_nat n <= k < Z.of_nat n)%Z.

(** Every entry of an array of actions truncates to a valid index of its
    factor's action axis. *)
Definition valid_actions (B : list ndarray3) (P : actions) : Prop :=
  forall t f row a, a_rows P !! t = Some row -> row !! f = Some a ->
    valid_index (shape2 (B !!! f)) (int_trunc a).

(** A categorical distribution: non-negative entries that sum to 1. *)
Definition distribution (q : vec) : Prop :=
  Forall (fun x => (0 <= x)%R) q /\ sum q = 1%R.

(** [n] timesteps of beliefs, one distribution over the states of each
    factor of [B]. *)
Definition valid_beliefs (B : list ndarray3) (n : nat) (qs : list (list vec)) : Prop :=
  length qs = n /\
  forall t, t < n ->
    length (qs !!! t) = length B /\
    forall f, f < length B ->
      length ((qs !!! t) !!! f) = shape0 (B !!! f) /\
      distribution ((qs !!! t) !!! f).

(** A tensor with all entries equal. *)
Definition flat (X : tensor) : Prop :=
  exists c, forall idx, t_at X idx = c.

(** Every action slice of [Bf] has columns that sum to 1: a transition
    array as the data model requires it. *)
Definition stochastic (Bf : ndarray3) : Prop :=
  forall u j, u < shape2 Bf -> j < shape1 Bf ->
    big_sum (shape0 Bf) (fun i => at3 Bf i j u) = 1%R.

(** Every action slice of [Bf] has rows that sum to 1 as well: the uniform
    belief is a fixed point of the transition. *)
Definition keeps_uniform (Bf : ndarray3) : Prop :=
  forall u i, u < shape2 Bf -> i < shape0 Bf ->
    big_sum (shape1 Bf) (fun j => at3 Bf i j u) = 1%R.

(** A normalisation that returns a matrix of the shape it was given. *)
Definition keeps_shape (norm : matrix -> matrix) : Prop :=
  forall M, m_rows (norm M) = m_rows M /\ m_cols (norm M) = m_cols M.

(** The same call with another action trajectory. *)
Definition set_policy (e : env) (P : actions) : env :=
  {| past_len := past_len e; future_len := future_len e;
     infer_len := infer_len e; future_cutoff := future_cutoff e;
     num_states := num_states e; num_factors := num_factors e;
     B := B e; trans_B := trans_B e; qs_T := qs_T e; prior := prior e;
     ll_seq := ll_seq e; policy := P;
     grad_descent := grad_descent e; tau := tau e |}.

(** Every entry replaced by its truncation. *)
Definition truncated (P : actions) : actions :=
  {| a_cols := a_cols P;
     a_rows := (fun row : list Q => (fun a => inject_Z (int_trunc a)) <$> row)
                 <$> a_rows P |}.

(** ** Concrete calls *)

Module Examples.
Local Open Scope R_scope.

(** One factor with two states and one action that keeps the state. *)
Definition B_keep : list ndarray3 :=
  [ {| shape0 := 2; shape1 := 2; shape2 := 1;
       at3 := fun i j _ => if decide (i = j) then 1 else 0 |} ].

(** One factor with two states and one action that leads to state 0 from
    both states: each column of the slice is (1, 0). *)
Definition B_sink : list ndarray3 :=
  [ {| shape0 := 2; shape1 := 2; shape2 := 1;
       at3 := fun i _ _ => if decide (i = 0%nat) then 1 else 0 |} ].

(** A likelihood over the two states with all entries equal. *)
Definition ll_flat : tensor := {| t_shape := [2%nat]; t_at := fun _ => 1 / 2 |}.

(** Policies of one factor. *)
Definition policy_of (rows : list Q) : actions :=
  {| a_cols := 1; a_rows := (fun a => [a]) <$> rows |}.
End Examples.

(** ** Comparing calls *)

(** Two outcomes agree: both return, with results related by [R], or both
    raise the same exception. *)
Definition agree {A C : Type} (R : A -> C -> Prop) (r1 : result A) (r2 : result C)
  : Prop :=
  match r1, r2 with
  | Ok a, Ok c => R a c
  | Raise e1, Raise e2 => e1 = e2
  | _, _ => False
  end.

(** The slice of [T] that entry [(r, f)] of a trajectory selects: the
    index expression [T[:, :, int(P[r, f])]] of lines 85 and 92. *)
Definition selected_slice (P : actions) (T : ndarray3) (r f : nat) : result matrix :=
  a ← policy_at P r f; slice_action T (int_trunc a).

(** The same call with another step size. *)
Definition set_tau (e : env) (tau' : R) : env :=
  {| past_len := past_len e; future_len := future_len e;
     infer_len := infer_len e; future_cutoff := future_cutoff e;
     num_states := num_states e; num_factors := num_factors e;
     B := B e; trans_B := trans_B e; qs_T := qs_T e; prior := prior e;
     ll_seq := ll_seq e; policy := policy e;
     grad_descent := grad_descent e; tau := tau' |}.

(** The slice an action entry selects on an axis of length [n], written as
    a non-negative entry; an entry that selects none is left as it is. *)
Definition wrap_action (n : nat) (a : Q) : Q :=
  match axis_index n (int_trunc a) with
  | Ok u => inject_Z (Z.of_nat u)
  | Raise _ => a
  end.

(** Every entry of a trajectory replaced by the slice it selects in the
    transition array of its factor. *)
Definition wrapped (B : list ndarray3) (P : actions) : actions :=
  {| a_cols := a_cols P;
     a_rows := (fun row : list Q => imap (fun f a => wrap_action (shape2 (B !!! f)) a) row)
                 <$> a_rows P |}.

(** Two helper sets that differ at most in [calc_free_energy]. *)
Definition same_messages (M1 M2 : Maths) : Prop :=
  (forall X qs f, @spm_dot M1 X qs f = @spm_dot M2 X qs f) /\
  (forall M, @spm_norm M1 M = @spm_norm M2 M) /\
  (forall v, @softmax M1 v = @softmax M2 v).

(** A helper set with another free energy. *)
Definition with_free_energy (M : Maths)
  (fe : list vec -> list vec -> nat -> option tensor -> R) : Maths :=
  {| spm_dot := @spm_dot M; spm_norm := @spm_norm M; softmax := @softmax M;
     calc_free_energy := fe |}.

(** ** Where a call raises *)


Section FailurePoint.
Context `{Maths}.


End FailurePoint.

Module MoreExamples.
Local Open Scope R_scope.

(** One factor with two states and two actions: action 0 keeps the state,
    action 1 swaps the two states. *)
Definition B_swap : list ndarray3 :=
  [ {| shape0 := 2; shape1 := 2; shape2 := 2;
       at3 := fun i j u =>
                if decide (u = 0%nat)
                then (if decide (i = j) then 1 else 0)
                else (if decide (i = j) then 0 else 1) |} ].

(** One factor whose transition array is not square. *)
Definition B_wide : list ndarray3 :=
  [ {| shape0 := 2; shape1 := 3; shape2 := 1; at3 := fun _ _ _ => 1 / 2 |} ].

(** A policy of two factors. *)
Definition policy_two (rows : list (Q * Q)) : actions :=
  {| a_cols := 2; a_rows := (fun p => [p.1; p.2]) <$> rows |}.
End MoreExamples.

(** ** Loops *)

Section Loops.
Context {X S : Type}.
Implicit Types (xs : list X) (body : X -> S -> result S) (s : S).

Lemma bind_Ok {A C} (m : result A) (k : A -> result C) (c : C) :
  (a ← m; k a) = Ok c -> exists a, m = Ok a /\ k a = Ok c.
Proof. destruct m as [a|e]; [eauto | discriminate]. Qed.

Lemma for_each_app xs ys body s :
  for_each (xs ++ ys) body s = (s' ← for_each xs body s; for_each ys body s').
Proof.
  revert s. induction xs as [|x xs IH]; intros s; [reflexivity|].
  cbn. destruct (body x s) as [s'|err]; cbn; [apply IH | reflexivity].
Qed.

Lemma for_each_ext xs body body' s :
  (forall x s, x ∈ xs -> body x s = body' x s) ->
  for_each xs body s = for_each xs body' s.
Proof.
  revert s. induction xs as [|x xs IH]; intros s Hext; [reflexivity|].
  cbn. rewrite <- (Hext x s) by left.
  destruct (body x s) as [s'|err]; cbn; [|reflexivity].
  apply IH. intros y s0 Hy. apply Hext. by right.
Qed.

(** A property that every pass of the body preserves holds at the end. *)
Lemma for_each_invariant (I : S -> Prop) xs body s s' :
  (forall x s s', x ∈ xs -> I s -> body x s = Ok s' -> I s') ->
  I s -> for_each xs body s = Ok s' -> I s'.
Proof.
  revert s. induction xs as [|x xs IH]; intros s Hstep Hs Hrun.
  - by injection Hrun as <-.
  - cbn in Hrun. apply bind_Ok in Hrun as (s1 & Hx & Hrun).
    apply (IH s1); [|by eapply Hstep; [left|..]|done].
    intros y s2 s3 Hy. apply Hstep. by right.
Qed.

(** A loop whose body never raises on the states it meets returns. *)
Lemma for_each_total (I : S -> Prop) xs body s :
  (forall x s, x ∈ xs -> I s -> exists s', body x s = Ok s' /\ I s') ->
  I s -> exists s', for_each xs body s = Ok s' /\ I s'.
Proof.
  revert s. induction xs as [|x xs IH]; intros s Hstep Hs; [by exists s|].
  destruct (Hstep x s) as (s1 & Hx & Hs1); [by left|done|].
  cbn. rewrite Hx. cbn. apply IH; [|done].
  intros y s2 Hy. apply Hstep. by right.
Qed.

(** A loop that returns has met no raising pass: the pass for [x] was run
    on some state and returned. *)
Lemma for_each_Ok_elem xs body s s' x :
  for_each xs body s = Ok s' -> x ∈ xs -> exists s1 s2, body x s1 = Ok s2.
Proof.
  revert s. induction xs as [|y xs IH]; intros s Hrun Hx.
  - by apply elem_of_nil in Hx.
  - cbn in Hrun. apply bind_Ok in Hrun as (s1 & Hy & Hrun).
    apply elem_of_cons in Hx as [->|Hx]; [eauto | by eapply IH].
Qed.

(** The exceptions of a loop are those of its body. *)
Lemma for_each_Raise (E : exn -> Prop) xs body s err :
  (forall x s err, x ∈ xs -> body x s = Raise err -> E err) ->
  for_each xs body s = Raise err -> E err.
Proof.
  revert s. induction xs as [|x xs IH]; intros s Hbody Hrun; [discriminate|].
  cbn in Hrun. destruct (body x s) as [s1|err1] eqn:Hx; cbn in Hrun.
  - apply (IH s1); [|done]. intros y s2 err2 Hy. apply Hbody. by right.
  - injection Hrun as <-. eapply Hbody; [by left | done].
Qed.

Lemma for_each_states_length xs body s l :
  for_each_states xs body s = Ok l -> length l = length xs.
Proof.
  revert s l. induction xs as [|x xs IH]; intros s l Hl.
  - by injection Hl as <-.
  - cbn in Hl. apply bind_Ok in Hl as (s1 & Hx & Hl).
    apply bind_Ok in Hl as (rest & Hrest & Hl). injection Hl as <-.
    cbn. f_equal. by eapply IH.
Qed.

(** The loop returns the last of the states it goes through. *)
Lemma for_each_states_last xs body s s' :
  for_each xs body s = Ok s' ->
  exists l, for_each_states xs body s = Ok l /\ last (s :: l) = Some s'.
Proof.
  revert s. induction xs as [|x xs IH]; intros s Hrun.
  - injection Hrun as <-. by exists [].
  - cbn in Hrun. apply bind_Ok in Hrun as (s1 & Hx & Hrun).
    destruct (IH _ Hrun) as (l & Hl & Hlast).
    exists (s1 :: l). cbn. rewrite Hx. cbn. rewrite Hl. cbn. split; [done|].
    by destruct l.
Qed.
End Loops.

(** Two nested [range] loops visit the pairs of [traversal] in order. *)
Lemma nested_loops_traversal {S : Type} (n m : nat)
  (body : nat -> nat -> S -> result S) (s : S) :
  for_range n (fun i => for_range m (body i)) s =
  for_each (traversal n m) (fun p => body p.1 p.2) s.
Proof.
  unfold for_range, traversal. generalize (seq 0 n). intros ks. revert s.
  induction ks as [|i ks IH]; intros s; [reflexivity|].
  cbn. rewrite for_each_app.
  assert (for_each (pair i <$> seq 0 m) (fun p => body p.1 p.2) s
          = for_each (seq 0 m) (body i) s) as ->.
  { generalize (seq 0 m). intros js. revert s.
    induction js as [|j js IHj]; intros s; [reflexivity|].
    cbn. destruct (body i j s); cbn; [apply IHj | reflexivity]. }
  destruct (for_each (seq 0 m) (body i) s); cbn; [apply IH | reflexivity].
Qed.

(** ** Arithmetic *)

(** Evaluate the model on a concrete call, leaving the real numbers alone. *)
Ltac run_model :=
  lazy -[Rplus Rmult Rminus Rdiv Rinv Ropp ln exp INR IZR eps].

Lemma eps_pos : (0 < eps)%R.
Proof. unfold eps. lra. Qed.

Lemma ln_eq_0 x : (0 < x)%R -> ln x = 0%R -> x = 1%R.
Proof. intros Hx Hln. apply ln_inv; [done|lra|]. by rewrite ln_1. Qed.

(** ** The window (lines 22-31) and the future message (lines 88-93) *)

Section Window.
Context `{Maths}.

(** What a call that gets past its preprocessing has fixed. *)
Lemma preprocess_Ok A B0 ll pol prev pri gd tau0 last e :
  preprocess A B0 ll pol prev pri gd tau0 last = Ok e ->
  exists TB P,
    transposed_transitions B0 = Ok TB /\
    vstack (default (azeros (length ll) (a_cols pol)) prev) pol = Ok P /\
    (0 <= (window (length ll) (length (a_rows pol)) last).1)%Z /\
    e = {| past_len := length ll; future_len := length (a_rows pol);
           infer_len := (window (length ll) (length (a_rows pol)) last).1;
           future_cutoff := (window (length ll) (length (a_rows pol)) last).2;
           num_states := shape0 <$> B0; num_factors := length B0;
           B := B0; trans_B := TB; qs_T := zeros <$> (shape0 <$> B0);
           prior := default (ones_div <$> (shape0 <$> B0)) pri;
           ll_seq := ll; policy := P; grad_descent := gd; tau := tau0 |}.
Proof.
  unfold preprocess, get_model_dimensions. cbn.
  destruct (decide _) as [|Hlen]; [discriminate|].
  intros Hrun. apply bind_Ok in Hrun as (TB & HTB & Hrun).
  assert (match prev with Some p => p | None => azeros (length ll) (a_cols pol) end
          = default (azeros (length ll) (a_cols pol)) prev) as Hprev by by destruct prev.
  rewrite Hprev in Hrun.
  apply bind_Ok in Hrun as (P & HP & Hrun). injection Hrun as <-.
  exists TB, P. split_and!; [done|done|lia|by destruct pri].
Qed.

Lemma terminal_message_zeros (B0 : list ndarray3) f :
  f < length B0 ->
  (zeros <$> (shape0 <$> B0)) !!! f = zeros (shape0 (B0 !!! f)).
Proof.
  intros Hf. destruct (lookup_lt_is_Some_2 B0 f Hf) as [Bf HBf].
  apply list_lookup_total_correct. rewrite !list_lookup_fmap, HBf. cbn.
  by rewrite (list_lookup_total_correct _ _ _ HBf).
Qed.

(** C2, as amended.  [infer_len] is [past_len + future_len], one less
    when [last_timestep] is set, and [future_cutoff] is
    [past_len + future_len - 2].  The cutoff is the first timestep that
    uses the terminal message: every [t < future_cutoff] gets the message
    computed from [trans_B] and [qs_seq[t+1][f]], every
    [t >= future_cutoff] gets [qs_T[f]], the zero vector. *)
Theorem future_cutoff_first_terminal A B0 ll pol prev pri gd tau0 last e :
  preprocess A B0 ll pol prev pri gd tau0 last = Ok e ->
  infer_len e = (if last
                 then Z.of_nat (length ll) + Z.of_nat (length (a_rows pol)) - 1
                 else Z.of_nat (length ll) + Z.of_nat (length (a_rows pol)))%Z /\
  future_cutoff e = (Z.of_nat (length ll) + Z.of_nat (length (a_rows pol)) - 2)%Z /\
  (forall t f qs, (Z.of_nat t < future_cutoff e)%Z ->
     future_message e t f qs = successor_message e t f qs) /\
  (forall t f qs, (future_cutoff e <= Z.of_nat t)%Z -> f < length B0 ->
     future_message e t f qs = Ok (qs_T e !!! f) /\
     qs_T e !!! f = zeros (shape0 (B0 !!! f))).
Proof.
  intros (TB & P & _ & _ & _ & ->)%preprocess_Ok. cbn.
  split_and!; [by destruct last|done|..].
  - intros t f qs Ht. unfold future_message. cbn.
    destruct (decide _); [lia|done].
  - intros t f qs Ht Hf. unfold future_message. cbn.
    destruct (decide _); [|lia]. split; [done|].
    by apply terminal_message_zeros.
Qed.

(** C6, as amended.  With [future_len = 1] and [last_timestep] set,
    [infer_len = past_len] and [future_cutoff = infer_len - 1]: the last
    timestep of the window uses the terminal message, every earlier one
    the message computed from [trans_B], and all of them use the terminal
    message when [past_len <= 1]. *)
Theorem single_step_last_timestep_window A B0 ll pol prev pri gd tau0 e :
  preprocess A B0 ll pol prev pri gd tau0 true = Ok e ->
  length (a_rows pol) = 1 ->
  infer_len e = Z.of_nat (length ll) /\
  future_cutoff e = (infer_len e - 1)%Z /\
  (forall t f qs, (Z.of_nat t < infer_len e - 1)%Z ->
     future_message e t f qs = successor_message e t f qs) /\
  (forall t f qs, (infer_len e - 1 <= Z.of_nat t)%Z ->
     future_message e t f qs = Ok (qs_T e !!! f)) /\
  (length ll <= 1 -> forall t f qs, future_message e t f qs = Ok (qs_T e !!! f)).
Proof.
  intros (TB & P & _ & _ & _ & ->)%preprocess_Ok Hfut. cbn. rewrite Hfut.
  split_and!; [lia|lia|..]; intros; unfold future_message; cbn;
    rewrite ?Hfut; destruct (decide _); done || lia.
Qed.
End Window.

Import Examples.

(** C2 as stated fails: with one observation and a policy of two steps the
    window is 0, 1, 2 and the cutoff is 1; timestep 1 has a successor belief
    but its future message is the terminal zero vector, not the message
    computed from [trans_B] and [qs_seq[2][0]]. *)
Lemma future_cutoff_uses_terminal_message :
  exists e,
    preprocess [] B_keep [ll_flat] (policy_of [0%Q; 0%Q]) None None false (1/4)%R false
      = Ok e /\
    (0 <= future_cutoff e < infer_len e - 1)%Z /\
    let t := Z.to_nat (future_cutoff e) in
    let qs := qs_seq (initial_state e) in
    future_message e t 0 qs = Ok (zeros 2) /\
    future_message e t 0 qs <> successor_message e t 0 qs.
Proof.
  eexists. split; [run_model; reflexivity|]. split; [cbn; lia|].
  split; [reflexivity|].
  run_model. intros [= Hln _]. symmetry in Hln.
  pose proof eps_pos. simpl INR in Hln. apply ln_eq_0 in Hln; unfold eps in *; lra.
Qed.

Lemma future_cutoff_first_terminal_witness :
  exists e,
    preprocess [] B_keep [ll_flat] (policy_of [0%Q; 0%Q]) None None false (1/4)%R false
      = Ok e /\
    infer_len e = 3%Z /\ future_cutoff e = 1%Z.
Proof.
  eexists. split; [run_model; reflexivity|].
  pose proof (future_cutoff_first_terminal
                [] B_keep [ll_flat] (policy_of [0%Q; 0%Q]) None None false (1/4)%R false
                _ eq_refl) as (Hlen & Hcut & _).
  split; [exact Hlen | exact Hcut].
Defined.

(** C6 as stated fails: with two observations, a policy of one step and
    [last_timestep] set, the cutoff is 1, not below 0, and timestep 0 of
    the window gets the message computed from [trans_B], not the terminal
    message. *)
Lemma single_step_future_not_collapsed :
  exists e,
    preprocess [] B_keep [ll_flat; ll_flat] (policy_of [0%Q]) None None false (1/4)%R true
      = Ok e /\
    future_len e = 1 /\
    (0 < infer_len e)%Z /\
    (0 <= future_cutoff e)%Z /\
    future_message e 0 0 (qs_seq (initial_state e)) <> Ok (qs_T e !!! 0).
Proof.
  eexists. split; [run_model; reflexivity|]. split; [done|].
  split; [cbn; lia|]. split; [cbn; lia|].
  run_model. intros [= Hln _].
  pose proof eps_pos. simpl INR in Hln. apply ln_eq_0 in Hln; unfold eps in *; lra.
Qed.

Lemma single_step_last_timestep_window_witness :
  exists e,
    preprocess [] B_keep [ll_flat] (policy_of [0%Q]) None None false (1/4)%R true
      = Ok e /\
    infer_len e = 1%Z /\ future_cutoff e = (infer_len e - 1)%Z.
Proof.
  eexists. split; [run_model; reflexivity|].
  pose proof (single_step_last_timestep_window
                [] B_keep [ll_flat] (policy_of [0%Q]) None None false (1/4)%R
                _ eq_refl eq_refl) as (Hlen & Hcut & _).
  split; [exact Hlen | exact Hcut].
Defined.

(** ** No iteration (lines 38-44, 70-72) *)

Section NoSweep.
Context `{Maths}.

Lemma initial_beliefs_lookup n ns t f :
  t < n -> f < length ns ->
  (initial_beliefs n ns !!! t) !!! f = replicate (ns !!! f) (1 / INR (ns !!! f))%R.
Proof.
  intros Ht Hf. unfold initial_beliefs.
  rewrite lookup_total_replicate_2 by done.
  destruct (lookup_lt_is_Some_2 ns f Hf) as [k Hk].
  rewrite (list_lookup_total_correct _ _ _ Hk).
  apply list_lookup_total_correct. by rewrite list_lookup_fmap, Hk.
Qed.

Lemma num_states_lookup (B0 : list ndarray3) f :
  f < length B0 -> (shape0 <$> B0) !!! f = shape0 (B0 !!! f).
Proof.
  intros Hf. destruct (lookup_lt_is_Some_2 B0 f Hf) as [Bf HBf].
  apply list_lookup_total_correct. rewrite list_lookup_fmap, HBf. cbn.
  by rewrite (list_lookup_total_correct _ _ _ HBf).
Qed.

(** C7.  With [num_iter = 0] a call that gets past its preprocessing
    returns [F = 0] and [infer_len] timesteps of beliefs, the belief of
    factor [f] at each being the vector of [num_states[f]] entries
    [1 / num_states[f]]. *)
Theorem no_iteration_returns_initial_beliefs A B0 ll pol prev pri gd tau0 last e :
  preprocess A B0 ll pol prev pri gd tau0 last = Ok e ->
  run_mmp_v2 A B0 ll pol prev pri 0 gd tau0 last
    = Ok (initial_beliefs (Z.to_nat (infer_len e)) (num_states e), 0%R) /\
  num_states e = shape0 <$> B0 /\
  length (initial_beliefs (Z.to_nat (infer_len e)) (num_states e))
    = Z.to_nat (infer_len e) /\
  forall t f, t < Z.to_nat (infer_len e) -> f < length B0 ->
    (initial_beliefs (Z.to_nat (infer_len e)) (num_states e) !!! t) !!! f
    = replicate (shape0 (B0 !!! f)) (1 / INR (shape0 (B0 !!! f)))%R.
Proof.
  intros Hpre. unfold run_mmp_v2. rewrite Hpre. cbn.
  apply preprocess_Ok in Hpre as (TB & P & _ & _ & _ & ->). cbn.
  split_and!; [done|done|apply length_replicate|].
  intros t f Ht Hf. rewrite initial_beliefs_lookup by (rewrite ?length_fmap; done).
  by rewrite num_states_lookup.
Qed.
End NoSweep.

Lemma no_iteration_returns_initial_beliefs_witness :
  run_mmp_v2 [] B_keep [ll_flat] (policy_of [0%Q]) None None 0 false (1/4)%R false
  = Ok ([[ [1 / INR 2; 1 / INR 2] ]; [ [1 / INR 2; 1 / INR 2] ]], 0)%R.
Proof.
  exact (proj1 (no_iteration_returns_initial_beliefs
                  [] B_keep [ll_flat] (policy_of [0%Q]) None None false (1/4)%R false
                  _ eq_refl)).
Defined.

(** ** Writing a belief *)

Lemma write_lookup_eq (qs : list (list vec)) t f v :
  t < length qs -> f < length (qs !!! t) -> (write qs t f v !!! t) !!! f = v.
Proof.
  intros Ht Hf. unfold write.
  rewrite list_lookup_total_insert_eq by done.
  by rewrite list_lookup_total_insert_eq.
Qed.

Lemma write_lookup_ne (qs : list (list vec)) t f t' f' v :
  t' <> t \/ f' <> f -> (write qs t f v !!! t') !!! f' = (qs !!! t') !!! f'.
Proof.
  intros Hne. unfold write.
  destruct (decide (t' = t)) as [->|Ht].
  - destruct Hne as [|Hf]; [done|].
    destruct (decide (t < length qs)) as [Hlt|Hge].
    + rewrite list_lookup_total_insert_eq by done.
      by rewrite list_lookup_total_insert_ne.
    + by rewrite list_insert_ge by lia.
  - by rewrite list_lookup_total_insert_ne.
Qed.

Lemma length_write (qs : list (list vec)) t f v : length (write qs t f v) = length qs.
Proof. apply length_insert. Qed.

Lemma length_write_row (qs : list (list vec)) t f t' v :
  length (write qs t f v !!! t') = length (qs !!! t').
Proof.
  unfold write. destruct (decide (t' = t)) as [->|Ht].
  - destruct (decide (t < length qs)) as [Hlt|Hge].
    + rewrite list_lookup_total_insert_eq by done. apply length_insert.
    + by rewrite list_insert_ge by lia.
  - by rewrite list_lookup_total_insert_ne.
Qed.

Lemma div_scalar_scale a n v : div_scalar (scale a v) n = scale (a / n)%R v.
Proof.
  unfold div_scalar, scale. rewrite <- list_fmap_compose.
  apply list_fmap_ext. intros _ x _. cbn. unfold Rdiv. ring.
Qed.

(** ** One visit of (iteration, timestep, factor) (lines 74-109) *)

Section Visit.
Context `{Maths}.

(** C1.  Without [grad_descent], a visit of timestep [t] and factor [f]
    whose past and future messages are computed returns, with
    [qs_seq[t][f]] overwritten by the softmax of
    [lnA + lnB_past + lnB_future], every other belief and [F] as they
    were.  [lnA] is the floored log of the marginalised evidence when
    [t < past_len] and the zero vector otherwise; [lnB_past] is the
    floored log of [prior[f]] at [t = 0] and of
    [B[f][:, :, action(t-1, f)]] applied to [qs_seq[t-1][f]] otherwise. *)
Theorem direct_rule_update e t f st lnB_past lnB_future :
  grad_descent e = false ->
  t < length (qs_seq st) -> f < length (qs_seq st !!! t) ->
  past_message e t f (qs_seq st) = Ok lnB_past ->
  future_message e t f (qs_seq st) = Ok lnB_future ->
  let qs := qs_seq st in
  let lnA := likelihood_message e t f qs in
  (exists st',
     visit e t f st = Ok st' /\
     (qs_seq st' !!! t) !!! f = softmax (add (add lnA lnB_past) lnB_future) /\
     (forall t' f', t' <> t \/ f' <> f ->
        (qs_seq st' !!! t') !!! f' = (qs !!! t') !!! f') /\
     F st' = F st) /\
  (t < past_len e -> lnA = log_floor (spm_dot (ll_seq e !!! t) (qs !!! t) f)) /\
  (past_len e <= t -> lnA = zeros (num_states e !!! f)) /\
  (t = 0 -> lnB_past = log_floor (prior e !!! f)) /\
  (t <> 0 -> exists a u,
     policy_at (policy e) (t - 1) f = Ok a /\
     axis_index (shape2 (B e !!! f)) (int_trunc a) = Ok u /\
     lnB_past = log_floor (mdot (slice (B e !!! f) u) ((qs !!! (t - 1)) !!! f))).
Proof.
  intros Hgd Ht Hf Hpast Hfut qs lnA. split_and!.
  - eexists. unfold visit. cbv zeta. rewrite Hpast, Hfut, Hgd. cbn.
    split; [reflexivity|]. cbn. split_and!; [|intros t' f' Hne|done].
    + by apply write_lookup_eq.
    + by apply write_lookup_ne.
  - intros Hlt. unfold lnA, likelihood_message. by destruct (decide _).
  - intros Hge. unfold lnA, likelihood_message. destruct (decide _); [lia|done].
  - intros ->. unfold past_message in Hpast. cbn in Hpast. by injection Hpast as <-.
  - intros Hne. unfold past_message in Hpast.
    destruct (decide _); [done|]. unfold predecessor_message in Hpast.
    apply bind_Ok in Hpast as (a & Ha & Hpast).
    apply bind_Ok in Hpast as (M & HM & Hpast).
    unfold slice_action in HM. apply bind_Ok in HM as (u & Hu & HM).
    injection HM as <-. injection Hpast as <-. by exists a, u.
Qed.

(** C4.  With [grad_descent], a visit of timestep [t] and factor [f]
    whose past and future messages are computed returns with
    [qs_seq[t][f] = softmax(lnqs)], where [lnqs] is
    [log(qs_seq[t][f] + 1e-16)] moved by [tau] times the mean-centred
    residual [coeff*lnA + lnB_past + lnB_future - coeff*lnqs], [coeff]
    being 1 from the cutoff on and 2 before it; [F] grows by
    [0.5 * lnqs.(0.5*err)] at [t = 0] and [t = infer_len - 1] and by
    [lnqs.(0.5*(err - ((num_factors-1)/num_factors)*lnA))] elsewhere. *)
Theorem gradient_rule_update e t f st lnB_past lnB_future :
  grad_descent e = true ->
  t < length (qs_seq st) -> f < length (qs_seq st !!! t) ->
  past_message e t f (qs_seq st) = Ok lnB_past ->
  future_message e t f (qs_seq st) = Ok lnB_future ->
  let qs := qs_seq st in
  let lnA := likelihood_message e t f qs in
  let lnqs0 := log_floor ((qs !!! t) !!! f) in
  let coeff := if decide (future_cutoff e <= Z.of_nat t)%Z then 1%R else 2%R in
  let err0 := sub (add (add (scale coeff lnA) lnB_past) lnB_future) (scale coeff lnqs0) in
  let err := shift err0 (mean err0) in
  let lnqs := add lnqs0 (scale (tau e) err) in
  let n := IZR (Z.of_nat (num_factors e)) in
  exists st',
    visit e t f st = Ok st' /\
    (qs_seq st' !!! t) !!! f = softmax lnqs /\
    (forall t' f', t' <> t \/ f' <> f ->
       (qs_seq st' !!! t') !!! f' = (qs !!! t') !!! f') /\
    F st' = (F st +
             if decide (t = 0%nat \/ Z.of_nat t = (infer_len e - 1)%Z)
             then 0.5 * dot lnqs (scale 0.5 err)
             else dot lnqs (scale 0.5 (sub err (scale ((n - 1) / n) lnA))))%R.
Proof.
  intros Hgd Ht Hf Hpast Hfut qs lnA lnqs0 coeff err0 err lnqs n.
  unfold visit. cbv zeta. rewrite Hpast, Hfut, Hgd. cbn.
  destruct (decide (t = 0 \/ Z.of_nat t = (infer_len e - 1)%Z)) as [Hb|Hb];
    eexists; (split; [reflexivity|]); cbn.
  - split_and!; [by apply write_lookup_eq | intros; by apply write_lookup_ne | done].
  - split_and!; [by apply write_lookup_eq | intros; by apply write_lookup_ne |].
    rewrite div_scalar_scale. unfold n. by rewrite minus_IZR.
Qed.
End Visit.

Lemma direct_rule_update_witness :
  exists e,
    preprocess [] B_keep [ll_flat] (policy_of [0%Q; 0%Q]) None None false (1/4)%R false
      = Ok e /\
    exists st', visit e 1 0 (initial_state e) = Ok st' /\ F st' = 0%R.
Proof.
  eexists. split; [run_model; reflexivity|].
  edestruct (direct_rule_update) as ((st' & Hvisit & _ & _ & HF) & _);
    [ | | | | | exists st'; split; [exact Hvisit | exact HF] ].
  - reflexivity.
  - run_model. lia.
  - run_model. lia.
  - run_model. reflexivity.
  - run_model. reflexivity.
Defined.

Lemma gradient_rule_update_witness :
  exists e,
    preprocess [] B_keep [ll_flat] (policy_of [0%Q; 0%Q]) None None true (1/4)%R false
      = Ok e /\
    exists st', visit e 1 0 (initial_state e) = Ok st'.
Proof.
  eexists. split; [run_model; reflexivity|].
  edestruct (gradient_rule_update) as (st' & Hvisit & _);
    [ | | | | | exists st'; exact Hvisit ].
  - reflexivity.
  - run_model. lia.
  - run_model. lia.
  - run_model. reflexivity.
  - run_model. reflexivity.
Defined.

(** The accumulator of a loop whose passes each add a term to it. *)
Lemma for_each_states_sum {X S : Type} (g : X -> S -> R) (Fof : S -> R)
  (xs : list X) (body : X -> S -> result S) (s s' : S) (l : list S) :
  (forall x s s', x ∈ xs -> body x s = Ok s' -> Fof s' = (Fof s + g x s')%R) ->
  for_each_states xs body s = Ok l ->
  last (s :: l) = Some s' ->
  Fof s' = (Fof s + sum (zip_with g xs l))%R.
Proof.
  revert s l. induction xs as [|x xs IH]; intros s l Hstep Hl Hlast.
  - injection Hl as <-. injection Hlast as <-. unfold sum. cbn. lra.
  - cbn in Hl. apply bind_Ok in Hl as (s1 & Hx & Hl).
    apply bind_Ok in Hl as (rest & Hrest & Hl). injection Hl as <-.
    rewrite (IH s1 rest); [| |done|by destruct rest].
    + rewrite (Hstep x s s1); [|by left|done]. unfold sum. cbn. lra.
    + intros y s2 s3 Hy. apply Hstep. by right.
Qed.

(** ** The free energy of the direct rule (lines 69-70, 111-115) *)

Section FreeEnergy.
Context `{Maths}.

Lemma visit_direct_F e t f st st' :
  grad_descent e = false -> visit e t f st = Ok st' -> F st' = F st.
Proof.
  intros Hgd Hvisit. unfold visit in Hvisit. cbv zeta in Hvisit.
  apply bind_Ok in Hvisit as (lnB_past & _ & Hvisit).
  apply bind_Ok in Hvisit as (lnB_future & _ & Hvisit).
  rewrite Hgd in Hvisit. by injection Hvisit as <-.
Qed.

Lemma timestep_direct e t st st' :
  grad_descent e = false -> timestep e t st = Ok st' ->
  exists st1,
    for_range (num_factors e) (visit e t) st = Ok st1 /\
    F st1 = F st /\
    qs_seq st' = qs_seq st1 /\
    F st' = (F st + free_energy_at e t st')%R.
Proof.
  intros Hgd Hstep. unfold timestep in Hstep.
  apply bind_Ok in Hstep as (st1 & Hloop & Hstep).
  rewrite Hgd in Hstep. injection Hstep as <-.
  assert (F st1 = F st) as HF.
  { apply (for_each_invariant (fun s => F s = F st)) in Hloop; [done| |done].
    intros f s s' _ Hs Hvisit. rewrite <- Hs. by eapply visit_direct_F. }
  exists st1. by rewrite HF.
Qed.

Lemma length_traversal n m : length (traversal n m) = n * m.
Proof.
  unfold traversal.
  assert (forall ks : list nat,
            length (ks ≫= fun itr => pair itr <$> seq 0 m) = length ks * m) as Hlen.
  { induction ks as [|k ks IH]; cbn; [done|].
    by rewrite length_app, length_fmap, length_seq, IH. }
  by rewrite Hlen, length_seq.
Qed.

(** C5.  Without [grad_descent], every pass of the timestep loop runs the
    factor loop, which leaves [F] alone, and then adds to [F], once, the
    free energy of the joint belief [qs_seq[t]] against [prior], with
    [log(ll_seq[t] + 1e-16)] as likelihood exactly when [t < past_len].
    [F] starts at 0 and the returned [F] is the sum of these
    [num_iter * infer_len] values over the whole traversal, each taken
    in the state its pass ends in. *)
Theorem free_energy_accumulates A B0 ll pol prev pri tau0 final num_iter e qs Fv :
  preprocess A B0 ll pol prev pri false tau0 final = Ok e ->
  run_mmp_v2 A B0 ll pol prev pri num_iter false tau0 final = Ok (qs, Fv) ->
  (forall t st st', timestep e t st = Ok st' ->
     exists st1,
       for_range (num_factors e) (visit e t) st = Ok st1 /\
       F st1 = F st /\
       qs_seq st' = qs_seq st1 /\
       F st' = (F st + calc_free_energy (qs_seq st' !!! t) (prior e) (num_factors e)
                         (if decide (t < length ll)%nat
                          then Some (tlog_floor (ll !!! t)) else None))%R) /\
  exists states,
    for_each_states (traversal num_iter (Z.to_nat (infer_len e)))
      (fun p => timestep e p.2) (initial_state e) = Ok states /\
    length states = num_iter * Z.to_nat (infer_len e) /\
    last (initial_state e :: states) = Some {| qs_seq := qs; F := Fv |} /\
    Fv = sum (zip_with (fun p st => free_energy_at e p.2 st)
                (traversal num_iter (Z.to_nat (infer_len e))) states).
Proof.
  intros Hpre Hrun.
  assert (grad_descent e = false /\ past_len e = length ll /\ ll_seq e = ll)
    as (Hgd & Hpast & Hll).
  { by apply preprocess_Ok in Hpre as (TB & P & _ & _ & _ & ->). }
  split.
  { intros t st st' Hstep.
    destruct (timestep_direct e t st st' Hgd Hstep) as (st1 & Hloop & HF1 & Hqs & HF).
    exists st1. split_and!; [done..|].
    rewrite HF. unfold free_energy_at, accuracy_term. by rewrite Hpast, Hll. }
  unfold run_mmp_v2 in Hrun. rewrite Hpre in Hrun. cbn in Hrun.
  apply bind_Ok in Hrun as (st & Hloop & Hrun). injection Hrun as <- <-.
  unfold sweep in Hloop.
  rewrite (nested_loops_traversal num_iter (Z.to_nat (infer_len e))
             (fun _ => timestep e)) in Hloop.
  destruct (for_each_states_last _ _ _ _ Hloop) as (states & Hstates & Hlast).
  exists states. split_and!; [done| | by destruct st |].
  - rewrite (for_each_states_length _ _ _ _ Hstates). apply length_traversal.
  - assert (forall p s s', p ∈ traversal num_iter (Z.to_nat (infer_len e)) ->
              timestep e p.2 s = Ok s' ->
              F s' = (F s + free_energy_at e p.2 s')%R) as Hstep.
    { intros p s s' _ Hstep.
      by destruct (timestep_direct e p.2 s s' Hgd Hstep) as (_ & _ & _ & _ & ->). }
    rewrite (for_each_states_sum (fun p st => free_energy_at e p.2 st) F
               _ _ _ _ _ Hstep Hstates Hlast).
    cbn. lra.
Qed.
End FreeEnergy.

Lemma free_energy_accumulates_witness :
  exists e qs Fv,
    preprocess [] B_keep [ll_flat] (policy_of [0%Q]) None None false (1/4)%R false = Ok e /\
    run_mmp_v2 [] B_keep [ll_flat] (policy_of [0%Q]) None None 1 false (1/4)%R false
      = Ok (qs, Fv) /\
    exists states,
      length states = 2 /\
      Fv = sum (zip_with (fun p st => free_energy_at e p.2 st) (traversal 1 2) states).
Proof.
  eexists. eexists. eexists.
  split; [run_model; reflexivity|]. split; [run_model; reflexivity|].
  edestruct (free_energy_accumulates
               [] B_keep [ll_flat] (policy_of [0%Q]) None None (1/4)%R false 1)
    as (_ & states & _ & Hlen & _ & Hsum);
    [run_model; reflexivity | run_model; reflexivity | ].
  exists states. split; [exact Hlen | exact Hsum].
Defined.

(** ** Actions: truncation and indexing (lines 64-67, 85, 92) *)

Lemma int_trunc_inject_Z z : int_trunc (inject_Z z) = z.
Proof. unfold int_trunc. cbn. apply Z.quot_1_r. Qed.

Lemma policy_at_truncated P t f :
  policy_at (truncated P) t f =
  match policy_at P t f with
  | Ok a => Ok (inject_Z (int_trunc a))
  | Raise err => Raise err
  end.
Proof.
  unfold policy_at, truncated. cbn. rewrite list_lookup_fmap.
  destruct (a_rows P !! t) as [row|]; cbn; [|done].
  destruct (decide _); [|done]. rewrite list_lookup_fmap.
  by destruct (row !! f).
Qed.

Lemma truncated_azeros n c : truncated (azeros n c) = azeros n c.
Proof.
  unfold truncated, azeros. cbn. f_equal.
  rewrite fmap_replicate. f_equal. by rewrite fmap_replicate.
Qed.

Lemma vstack_truncated P1 P2 :
  vstack (truncated P1) (truncated P2) =
  match vstack P1 P2 with
  | Ok P => Ok (truncated P)
  | Raise err => Raise err
  end.
Proof.
  unfold vstack. cbn. destruct (decide _); [|done].
  unfold truncated. cbn. by rewrite fmap_app.
Qed.

Section Truncation.
Context `{Maths}.

Lemma predecessor_message_truncated e t f qs :
  predecessor_message (set_policy e (truncated (policy e))) t f qs
  = predecessor_message e t f qs.
Proof.
  unfold predecessor_message. cbn. rewrite policy_at_truncated.
  destruct (policy_at (policy e) (t - 1) f) as [a|err]; cbn; [|done].
  by rewrite int_trunc_inject_Z.
Qed.

Lemma successor_message_truncated e t f qs :
  successor_message (set_policy e (truncated (policy e))) t f qs
  = successor_message e t f qs.
Proof.
  unfold successor_message. cbn. rewrite policy_at_truncated.
  destruct (policy_at (policy e) t f) as [a|err]; cbn; [|done].
  by rewrite int_trunc_inject_Z.
Qed.

Lemma visit_truncated e t f st :
  visit (set_policy e (truncated (policy e))) t f st = visit e t f st.
Proof.
  unfold visit, past_message, future_message.
  rewrite predecessor_message_truncated, successor_message_truncated.
  reflexivity.
Qed.

Lemma timestep_truncated e t st :
  timestep (set_policy e (truncated (policy e))) t st = timestep e t st.
Proof.
  unfold timestep, for_range. cbn.
  rewrite (for_each_ext _ _ (visit e t)); [done|].
  intros f s _. apply visit_truncated.
Qed.

Lemma sweep_truncated e itr st :
  sweep (set_policy e (truncated (policy e))) itr st = sweep e itr st.
Proof.
  unfold sweep, for_range. cbn. apply for_each_ext.
  intros t s _. apply timestep_truncated.
Qed.

Lemma preprocess_truncated A B0 ll pol prev pri gd tau0 final :
  preprocess A B0 ll (truncated pol) (truncated <$> prev) pri gd tau0 final =
  match preprocess A B0 ll pol prev pri gd tau0 final with
  | Ok e => Ok (set_policy e (truncated (policy e)))
  | Raise err => Raise err
  end.
Proof.
  unfold preprocess, get_model_dimensions. cbn. rewrite length_fmap.
  destruct (decide _); [done|].
  destruct (transposed_transitions B0) as [TB|err]; cbn; [|done].
  assert (match truncated <$> prev with
          | Some p => p
          | None => azeros (length ll) (a_cols pol)
          end
          = truncated (match prev with
                       | Some p => p
                       | None => azeros (length ll) (a_cols pol)
                       end)) as ->.
  { destruct prev; cbn; [done|]. by rewrite truncated_azeros. }
  rewrite vstack_truncated. by destruct (vstack _ pol).
Qed.

Lemma run_mmp_v2_truncated A B0 ll pol prev pri num_iter gd tau0 final :
  run_mmp_v2 A B0 ll (truncated pol) (truncated <$> prev) pri num_iter gd tau0 final
  = run_mmp_v2 A B0 ll pol prev pri num_iter gd tau0 final.
Proof.
  unfold run_mmp_v2. rewrite preprocess_truncated.
  destruct (preprocess A B0 ll pol prev pri gd tau0 final) as [e|err]; cbn; [|done].
  unfold for_range.
  rewrite (for_each_ext _ _ (sweep e)); [done|].
  intros itr s _. apply sweep_truncated.
Qed.
End Truncation.

Section Totality.
Context `{Maths}.
Hypothesis spm_norm_shape : keeps_shape spm_norm.

(** The first [n] action slices of [trans_B[f]] once the loop has set them. *)
Lemma transposed_transition_prefix (Bf : ndarray3) n :
  shape0 Bf = shape1 Bf ->
  exists T,
    for_range n (fun u T => assign_slice T u (spm_norm (transpose (slice Bf u))))
      (zeros_like Bf) = Ok T /\
    shape0 T = shape0 Bf /\ shape1 T = shape1 Bf /\ shape2 T = shape2 Bf /\
    forall u i j, u < n -> at3 T i j u = m_at (spm_norm (transpose (slice Bf u))) i j.
Proof.
  intros Hsq. unfold for_range. induction n as [|n (T & HT & H0 & H1 & H2 & Hat)].
  - exists (zeros_like Bf). split_and!; [done..|]. intros; lia.
  - rewrite seq_S, for_each_app, HT. cbn.
    unfold assign_slice. destruct (decide _) as [_|Hshape].
    + eexists. split; [reflexivity|]. cbn. split_and!; [done..|].
      intros u i j Hu. destruct (decide (u = n)) as [->|Hne]; [done|].
      apply Hat. lia.
    + destruct Hshape. destruct (spm_norm_shape (transpose (slice Bf n))) as [-> ->].
      cbn. lia.
Qed.

Lemma transposed_transition_Ok (Bf : ndarray3) :
  shape0 Bf = shape1 Bf ->
  exists T,
    transposed_transition Bf = Ok T /\
    shape0 T = shape0 Bf /\ shape1 T = shape1 Bf /\ shape2 T = shape2 Bf /\
    forall u i j, u < shape2 Bf ->
      at3 T i j u = m_at (spm_norm (transpose (slice Bf u))) i j.
Proof. apply transposed_transition_prefix. Qed.

Lemma transposed_transitions_Ok (B0 : list ndarray3) :
  Forall (fun Bf => shape0 Bf = shape1 Bf) B0 ->
  exists TB,
    transposed_transitions B0 = Ok TB /\
    Forall2 (fun Bf T => transposed_transition Bf = Ok T) B0 TB.
Proof.
  induction 1 as [|Bf B0 Hsq _ (TB & HTB & Hall)]; [by exists []|].
  destruct (transposed_transition_Ok Bf Hsq) as (T & HT & _).
  exists (T :: TB). cbn. rewrite HT. cbn. rewrite HTB. cbn.
  split; [done|]. by constructor.
Qed.

Lemma transposed_transitions_Forall2 (B0 TB : list ndarray3) :
  transposed_transitions B0 = Ok TB ->
  Forall2 (fun Bf T => transposed_transition Bf = Ok T) B0 TB.
Proof.
  revert TB. induction B0 as [|Bf B0 IH]; intros TB HTB.
  - injection HTB as <-. constructor.
  - cbn in HTB. apply bind_Ok in HTB as (T & HT & HTB).
    apply bind_Ok in HTB as (Ts & HTs & HTB). injection HTB as <-.
    constructor; [done | by apply IH].
Qed.
End Totality.

Lemma axis_index_valid n k :
  valid_index n k -> exists u, axis_index n k = Ok u /\ u < n.
Proof.
  unfold valid_index, axis_index. intros Hk.
  destruct (decide _) as [Hpos|Hneg]; [exists (Z.to_nat k); split; [done|lia]|].
  destruct (decide _) as [Hwrap|Hout]; [|lia].
  exists (Z.to_nat (k + Z.of_nat n)). split; [done|lia].
Qed.


Lemma policy_at_valid (B0 : list ndarray3) P t f :
  Forall (fun row => length row = a_cols P) (a_rows P) ->
  valid_actions B0 P ->
  t < length (a_rows P) -> f < a_cols P ->
  exists a, policy_at P t f = Ok a /\ valid_index (shape2 (B0 !!! f)) (int_trunc a).
Proof.
  intros Hrows Hvalid Ht Hf.
  destruct (lookup_lt_is_Some_2 _ _ Ht) as [row Hrow].
  assert (length row = a_cols P) as Hlen.
  { by eapply (proj1 (Forall_lookup _ _) Hrows). }
  destruct (lookup_lt_is_Some_2 row f) as [a Ha]; [lia|].
  exists a. unfold policy_at. rewrite Hrow. destruct (decide _); [|lia].
  rewrite Ha. split; [done|]. by eapply Hvalid.
Qed.

Lemma valid_actions_vstack (B0 : list ndarray3) P1 P2 P :
  vstack P1 P2 = Ok P ->
  valid_actions B0 P1 -> valid_actions B0 P2 -> valid_actions B0 P.
Proof.
  unfold vstack. destruct (decide _); [|done]. intros [= <-] H1 H2 t f row a. cbn.
  intros [Hrow|[_ Hrow]]%lookup_app_Some Ha; [by eapply H1 | by eapply H2].
Qed.

Lemma vstack_rows P1 P2 P :
  vstack P1 P2 = Ok P ->
  a_cols P = a_cols P2 /\ a_rows P = a_rows P1 ++ a_rows P2 /\ a_cols P1 = a_cols P2.
Proof. unfold vstack. destruct (decide _); [|done]. by intros [= <-]. Qed.

Section RunTotal.
Context `{Maths}.

Lemma transposed_transition_shape2 Bf T :
  transposed_transition Bf = Ok T -> shape2 T = shape2 Bf.
Proof.
  unfold transposed_transition, for_range. intros HT.
  apply (for_each_invariant (fun T => shape2 T = shape2 Bf)) in HT; [done| |done].
  intros u T1 T2 _ H1 Hassign. unfold assign_slice in Hassign.
  destruct (decide _); [|done]. by injection Hassign as <-.
Qed.

Lemma trans_B_shape2 (B0 TB : list ndarray3) f :
  transposed_transitions B0 = Ok TB -> f < length B0 ->
  shape2 (TB !!! f) = shape2 (B0 !!! f).
Proof.
  intros HTB%transposed_transitions_Forall2 Hf.
  destruct (lookup_lt_is_Some_2 _ _ Hf) as [Bf HBf].
  destruct (Forall2_lookup_l _ _ _ _ _ HTB HBf) as (T & HT & Htrans).
  rewrite (list_lookup_total_correct _ _ _ HBf), (list_lookup_total_correct _ _ _ HT).
  by apply transposed_transition_shape2.
Qed.

Lemma visit_total e t f st :
  is_ok (past_message e t f (qs_seq st)) = true ->
  is_ok (future_message e t f (qs_seq st)) = true ->
  exists st', visit e t f st = Ok st'.
Proof.
  unfold visit. cbv zeta.
  destruct (past_message _ _ _ _); [|done].
  destruct (future_message _ _ _ _); [|done]. intros _ _. cbn.
  destruct (grad_descent e); [|by eexists].
  destruct (decide _); by eexists.
Qed.

Lemma loops_total e num_iter st :
  (forall t f qs, (Z.of_nat t < infer_len e)%Z -> f < num_factors e ->
     is_ok (past_message e t f qs) = true /\ is_ok (future_message e t f qs) = true) ->
  exists st', for_range num_iter (sweep e) st = Ok st'.
Proof.
  intros Hmsg.
  destruct (for_each_total (fun _ => True) (seq 0 num_iter) (sweep e) st)
    as (st' & Hst' & _); [|done|by exists st'].
  intros itr s1 _ _. unfold sweep, for_range.
  destruct (for_each_total (fun _ => True) (seq 0 (Z.to_nat (infer_len e)))
              (timestep e) s1) as (s2 & Hs2 & _); [|done|by exists s2].
  intros t s3 Ht%elem_of_seq _. unfold timestep, for_range.
  destruct (for_each_total (fun _ => True) (seq 0 (num_factors e)) (visit e t) s3)
    as (s4 & Hs4 & _); [|done|].
  - intros f s5 Hf%elem_of_seq _.
    destruct (Hmsg t f (qs_seq s5)) as [Hpast Hfut]; [lia|lia|].
    destruct (visit_total e t f s5 Hpast Hfut) as [s6 Hs6]. by exists s6.
  - rewrite Hs4. cbn. destruct (grad_descent e); by eexists.
Qed.

(** A call on well-shaped arguments whose actions all truncate to valid
    indices returns. *)
Theorem run_mmp_v2_total A B0 ll pol prev pri num_iter gd tau0 final :
  keeps_shape spm_norm ->
  WellShaped B0 ll pol prev pri ->
  (0 <= (window (length ll) (length (a_rows pol)) final).1)%Z ->
  valid_actions B0 (default (azeros (length ll) (a_cols pol)) prev) ->
  valid_actions B0 pol ->
  exists r, run_mmp_v2 A B0 ll pol prev pri num_iter gd tau0 final = Ok r.
Proof.
  intros Hnorm [Hsq _ Hcols Hrows Hprev _] Hwin Hvprev Hvpol.
  destruct (transposed_transitions_Ok Hnorm B0 Hsq) as (TB & HTB & _).
  set (prevd := default (azeros (length ll) (a_cols pol)) prev) in *.
  assert (a_cols prevd = a_cols pol /\ length (a_rows prevd) = length ll /\
          Forall (fun row => length row = a_cols prevd) (a_rows prevd))
    as (Hpc & Hpr & Hprows).
  { unfold prevd. destruct prev as [P|]; cbn.
    - destruct Hprev as (-> & -> & Hall). by rewrite Hcols.
    - rewrite length_replicate. split_and!; [done..|].
      apply Forall_replicate, length_replicate. }
  assert (exists P, vstack prevd pol = Ok P) as [P HP].
  { unfold vstack. destruct (decide _); [by eexists|done]. }
  assert (exists e, preprocess A B0 ll pol prev pri gd tau0 final = Ok e) as [e He].
  { unfold preprocess, get_model_dimensions.
    destruct (window _ _ _) as [il fc] eqn:Hw. cbn in Hwin.
    destruct (decide _); [lia|]. rewrite HTB. cbn.
    assert (match prev with Some p => p | None => azeros (length ll) (a_cols pol) end
            = prevd) as -> by by destruct prev.
    rewrite HP. cbn. by eexists. }
  unfold run_mmp_v2. rewrite He. cbn.
  destruct (preprocess_Ok _ _ _ _ _ _ _ _ _ _ He) as (TB' & P' & HTB' & HP' & _ & Hrec).
  fold prevd in HP'. rewrite HTB in HTB'. rewrite HP in HP'.
  injection HTB' as <-. injection HP' as <-.
  destruct (vstack_rows _ _ _ HP) as (HPc & HPr & _).
  assert (Forall (fun row => length row = a_cols P) (a_rows P)) as HProws.
  { rewrite HPc, HPr. apply Forall_app. split; [|done].
    by rewrite <- Hpc. }
  pose proof (valid_actions_vstack B0 _ _ _ HP Hvprev Hvpol) as HvP.
  assert ((infer_len e <= Z.of_nat (length (a_rows P)))%Z) as Hlen.
  { rewrite Hrec, HPr, length_app, Hpr. cbn. destruct final; cbn; lia. }
  destruct (loops_total e num_iter (initial_state e)) as [st Hst];
    [|rewrite Hst; by eexists].
  intros t f qs Ht Hf.
  assert (f < a_cols P) as HfP by (rewrite HPc, Hcols; by rewrite Hrec in Hf).
  assert (f < length B0) as HfB by by rewrite Hrec in Hf.
  split.
  - unfold past_message. destruct (decide _); [done|].
    unfold predecessor_message.
    destruct (policy_at_valid B0 P (t - 1) f HProws HvP) as (a & Ha & Hva); [lia|done|].
    rewrite Hrec. cbn. rewrite Ha. cbn. unfold slice_action.
    by destruct (axis_index_valid _ _ Hva) as (u & -> & _).
  - unfold future_message. destruct (decide _); [done|].
    unfold successor_message.
    destruct (policy_at_valid B0 P t f HProws HvP) as (a & Ha & Hva); [lia|done|].
    rewrite Hrec. cbn. rewrite Ha. cbn. unfold slice_action.
    rewrite (trans_B_shape2 B0 TB f HTB HfB).
    by destruct (axis_index_valid _ _ Hva) as (u & -> & _).
Qed.
End RunTotal.

Section Actions.
Context `{Maths}.

(** C10.  Action entries are truncated by [int()] where they are used,
    and nowhere else are they read: a call on well-shaped arguments whose
    entries, fractional or not, truncate to valid indices returns, and
    returns what the call with every entry replaced by its truncation
    toward zero returns. *)
Theorem fractional_actions_are_truncated A B0 ll pol prev pri num_iter gd tau0 final :
  keeps_shape spm_norm ->
  WellShaped B0 ll pol prev pri ->
  (0 <= (window (length ll) (length (a_rows pol)) final).1)%Z ->
  valid_actions B0 (default (azeros (length ll) (a_cols pol)) prev) ->
  valid_actions B0 pol ->
  exists r,
    run_mmp_v2 A B0 ll pol prev pri num_iter gd tau0 final = Ok r /\
    run_mmp_v2 A B0 ll (truncated pol) (truncated <$> prev) pri num_iter gd tau0 final
      = Ok r.
Proof.
  intros Hnorm Hshape Hwin Hvprev Hvpol.
  destruct (run_mmp_v2_total A B0 ll pol prev pri num_iter gd tau0 final
              Hnorm Hshape Hwin Hvprev Hvpol) as [r Hr].
  exists r. by rewrite run_mmp_v2_truncated.
Qed.











End Actions.

Lemma spec_spm_norm_keeps_shape : keeps_shape (@spm_norm spec_maths).
Proof. by intros M. Qed.



Lemma fractional_actions_are_truncated_witness :
  exists r,
    run_mmp_v2 [] B_keep [ll_flat] (policy_of [(1#2)%Q]) (Some (policy_of [(-1#2)%Q])) None
      1 false (1/4)%R false = Ok r /\
    run_mmp_v2 [] B_keep [ll_flat] (policy_of [0%Q]) (Some (policy_of [0%Q])) None
      1 false (1/4)%R false = Ok r.
Proof.
  apply (fractional_actions_are_truncated
           [] B_keep [ll_flat] (policy_of [(1#2)%Q]) (Some (policy_of [(-1#2)%Q])) None
           1 false (1/4)%R false).
  - apply spec_spm_norm_keeps_shape.
  - split; cbn; repeat constructor.
  - cbn. lia.
  - intros [|t] [|f] row a; cbn; intros [= <-] [= <-]. unfold valid_index. vm_compute (int_trunc _). cbn. lia.
  - intros [|t] [|f] row a; cbn; intros [= <-] [= <-]. unfold valid_index. vm_compute (int_trunc _). cbn. lia.
Defined.

(** ** Beliefs are distributions (lines 96-109) *)

Section Vectors.
Local Open Scope R_scope.
Implicit Types (u v : vec) (c x : R).

Lemma sum_cons x v : sum (x :: v) = x + sum v.
Proof. reflexivity. Qed.

Lemma sum_replicate n x : sum (replicate n x) = INR n * x.
Proof.
  induction n as [|n IH]; [cbn; lra|].
  rewrite S_INR. cbn [replicate]. rewrite sum_cons, IH. lra.
Qed.

Lemma sum_div_scalar v c : sum (div_scalar v c) = sum v / c.
Proof.
  unfold div_scalar. induction v as [|x v IH]; [cbn; lra|].
  rewrite fmap_cons, !sum_cons, IH. lra.
Qed.

Lemma sum_exp_pos v : (0 < length v)%nat -> 0 < sum (exp <$> v).
Proof.
  destruct v as [|x v]; [cbn; lia|]. intros _.
  rewrite fmap_cons, sum_cons. pose proof (exp_pos x).
  assert (0 <= sum (exp <$> v)); [|lra].
  induction v as [|y v IH]; [cbn; lra|].
  rewrite fmap_cons, sum_cons. pose proof (exp_pos y). lra.
Qed.

Lemma length_add u v : length (add u v) = length u `min` length v.
Proof. apply length_zip_with. Qed.
Lemma length_sub u v : length (sub u v) = length u `min` length v.
Proof. apply length_zip_with. Qed.
Lemma length_scale c v : length (scale c v) = length v.
Proof. apply length_fmap. Qed.
Lemma length_shift v c : length (shift v c) = length v.
Proof. apply length_fmap. Qed.
Lemma length_log_floor v : length (log_floor v) = length v.
Proof. apply length_fmap. Qed.
Lemma length_zeros n : length (zeros n) = n.
Proof. apply length_replicate. Qed.
Lemma length_ones_div n : length (ones_div n) = n.
Proof. apply length_replicate. Qed.
Lemma length_mdot M v : length (mdot M v) = m_rows M.
Proof. unfold mdot. by rewrite length_fmap, length_seq. Qed.

Lemma ones_div_distribution n : (0 < n)%nat -> distribution (ones_div n).
Proof.
  intros Hn. assert (0 < INR n) by (apply lt_0_INR; lia).
  split.
  - apply Forall_replicate. apply Rlt_le, Rdiv_lt_0_compat; lra.
  - unfold ones_div. rewrite sum_replicate. field. lra.
Qed.

Lemma spec_softmax_length v : length (SpecMaths.softmax v) = length v.
Proof.
  unfold SpecMaths.softmax, SpecMaths.normalize, div_scalar.
  by rewrite !length_fmap.
Qed.

Lemma spec_softmax_distribution v :
  (0 < length v)%nat -> distribution (SpecMaths.softmax v).
Proof.
  intros Hv. pose proof (sum_exp_pos v Hv) as Hpos.
  unfold SpecMaths.softmax, SpecMaths.normalize. split.
  - unfold div_scalar. rewrite <- list_fmap_compose.
    apply Forall_fmap, Forall_forall. intros x _. cbn.
    apply Rlt_le, Rdiv_lt_0_compat; [apply exp_pos | done].
  - rewrite sum_div_scalar. field. lra.
Qed.
End Vectors.

Section Shapes.
Context `{Maths}.

Lemma transposed_transition_shape01 Bf T :
  transposed_transition Bf = Ok T -> shape0 T = shape0 Bf /\ shape1 T = shape1 Bf.
Proof.
  unfold transposed_transition, for_range. intros HT.
  apply (for_each_invariant
           (fun T => shape0 T = shape0 Bf /\ shape1 T = shape1 Bf)) in HT; [done| |done].
  intros u T1 T2 _ H1 Hassign. unfold assign_slice in Hassign.
  destruct (decide _); [|done]. by injection Hassign as <-.
Qed.

Lemma trans_B_shape01 (B0 TB : list ndarray3) f :
  transposed_transitions B0 = Ok TB -> f < length B0 ->
  shape0 (TB !!! f) = shape0 (B0 !!! f) /\ shape1 (TB !!! f) = shape1 (B0 !!! f).
Proof.
  intros HTB%transposed_transitions_Forall2 Hf.
  destruct (lookup_lt_is_Some_2 _ _ Hf) as [Bf HBf].
  destruct (Forall2_lookup_l _ _ _ _ _ HTB HBf) as (T & HT & Htrans).
  rewrite (list_lookup_total_correct _ _ _ HBf), (list_lookup_total_correct _ _ _ HT).
  by apply transposed_transition_shape01.
Qed.

Lemma prior_length (B0 : list ndarray3) (pri : option (list vec)) f :
  match pri with Some p => length <$> p = shape0 <$> B0 | None => True end ->
  f < length B0 ->
  length (default (ones_div <$> (shape0 <$> B0)) pri !!! f) = shape0 (B0 !!! f).
Proof.
  intros Hpri Hf. rewrite <- num_states_lookup by done.
  destruct pri as [p|]; cbn.
  - rewrite <- Hpri. symmetry. apply list_lookup_total_correct.
    rewrite list_lookup_fmap.
    assert (f < length p) as Hfp.
    { pose proof (f_equal length Hpri) as Hlen. rewrite !length_fmap in Hlen. lia. }
    destruct (lookup_lt_is_Some_2 _ _ Hfp) as [q Hq]. rewrite Hq. cbn.
    by rewrite (list_lookup_total_correct _ _ _ Hq).
  - assert (f < length (shape0 <$> B0)) as Hfn by by rewrite length_fmap.
    destruct (lookup_lt_is_Some_2 _ _ Hfn) as [k Hk].
    rewrite (list_lookup_total_correct _ _ _ Hk).
    erewrite (list_lookup_total_correct (ones_div <$> _));
      [apply length_ones_div|]. by rewrite list_lookup_fmap, Hk.
Qed.

Lemma past_message_length A B0 ll pol prev pri gd tau0 final e t f qs p :
  preprocess A B0 ll pol prev pri gd tau0 final = Ok e ->
  WellShaped B0 ll pol prev pri -> f < length B0 ->
  past_message e t f qs = Ok p -> length p = shape0 (B0 !!! f).
Proof.
  intros (TB & P & _ & _ & _ & ->)%preprocess_Ok [_ _ _ _ _ Hpri] Hf.
  unfold past_message. destruct (decide _).
  - intros [= <-]. cbn. rewrite length_log_floor. by apply prior_length.
  - unfold predecessor_message. cbn. intros (a & _ & Hp)%bind_Ok.
    apply bind_Ok in Hp as (M & HM & Hp). injection Hp as <-.
    unfold slice_action in HM. apply bind_Ok in HM as (u & _ & HM).
    injection HM as <-. by rewrite length_log_floor, length_mdot.
Qed.

Lemma future_message_length A B0 ll pol prev pri gd tau0 final e t f qs q :
  preprocess A B0 ll pol prev pri gd tau0 final = Ok e ->
  f < length B0 ->
  future_message e t f qs = Ok q -> length q = shape0 (B0 !!! f).
Proof.
  intros (TB & P & HTB & _ & _ & ->)%preprocess_Ok Hf.
  unfold future_message. destruct (decide _).
  - intros [= <-]. cbn. rewrite terminal_message_zeros by done. apply length_zeros.
  - unfold successor_message. cbn. intros (a & _ & Hq)%bind_Ok.
    apply bind_Ok in Hq as (M & HM & Hq). injection Hq as <-.
    unfold slice_action in HM. apply bind_Ok in HM as (u & _ & HM).
    injection HM as <-. rewrite length_log_floor, length_mdot. cbn.
    by destruct (trans_B_shape01 B0 TB f HTB Hf) as [-> _].
Qed.
End Shapes.

Lemma likelihood_message_length A B0 ll pol prev pri gd tau0 final e t f qs :
  preprocess A B0 ll pol prev pri gd tau0 final = Ok e ->
  WellShaped B0 ll pol prev pri -> f < length B0 ->
  length (likelihood_message e t f qs) = shape0 (B0 !!! f).
Proof.
  intros (TB & P & _ & _ & _ & ->)%preprocess_Ok [_ Hll _ _ _ _] Hf.
  unfold likelihood_message. cbn. destruct (decide _) as [Ht|Ht].
  - rewrite length_log_floor. cbn. unfold SpecMaths.spm_dot.
    rewrite length_fmap, length_seq.
    rewrite (proj1 (Forall_lookup_total _ _) Hll t Ht).
    by apply num_states_lookup.
  - rewrite length_zeros. by apply num_states_lookup.
Qed.

Create Rewrite HintDb vec_length.
#[global] Hint Rewrite length_add length_sub length_scale length_shift
  length_log_floor length_zeros length_ones_div length_mdot : vec_length.

Lemma valid_beliefs_write (B0 : list ndarray3) n qs t f v :
  valid_beliefs B0 n qs -> t < n -> f < length B0 ->
  length v = shape0 (B0 !!! f) -> distribution v ->
  valid_beliefs B0 n (write qs t f v).
Proof.
  intros [Hlen Hqs] Ht Hf Hv Hdist. split; [by rewrite length_write|].
  intros t' Ht'. destruct (Hqs t' Ht') as [Hrow Hbel].
  split; [by rewrite length_write_row|].
  intros f' Hf'. destruct (decide (t' = t /\ f' = f)) as [[-> ->]|Hne].
  - rewrite write_lookup_eq; [done|lia|lia].
  - rewrite write_lookup_ne; [by apply Hbel|].
    destruct (decide (t' = t)) as [->|]; [right|by left].
    intros ->. by apply Hne.
Qed.

Lemma initial_beliefs_valid (B0 : list ndarray3) n :
  Forall (fun Bf => 0 < shape0 Bf) B0 ->
  valid_beliefs B0 n (initial_beliefs n (shape0 <$> B0)).
Proof.
  intros Hpos. split; [apply length_replicate|]. intros t Ht.
  unfold initial_beliefs. rewrite lookup_total_replicate_2 by done.
  split; [by rewrite !length_fmap|]. intros f Hf.
  assert ((ones_div <$> (shape0 <$> B0)) !!! f = ones_div (shape0 (B0 !!! f))) as ->.
  { destruct (lookup_lt_is_Some_2 _ _ Hf) as [Bf HBf].
    apply list_lookup_total_correct. rewrite !list_lookup_fmap, HBf. cbn.
    by rewrite (list_lookup_total_correct _ _ _ HBf). }
  split; [apply length_ones_div|]. apply ones_div_distribution.
  by apply (proj1 (Forall_lookup_total _ _) Hpos).
Qed.

Section Validity.
Variables (A : list tensor) (B0 : list ndarray3) (ll : list tensor)
  (pol : actions) (prev : option actions) (pri : option (list vec))
  (gd : bool) (tau0 : R) (final : bool) (e : env).
Hypothesis Hpre : preprocess A B0 ll pol prev pri gd tau0 final = Ok e.
Hypothesis Hshape : WellShaped B0 ll pol prev pri.
Hypothesis Hpos : Forall (fun Bf => 0 < shape0 Bf) B0.

Local Abbreviation n := (Z.to_nat (infer_len e)).

Lemma visit_valid_beliefs t f st st' :
  t < n -> f < length B0 ->
  valid_beliefs B0 n (qs_seq st) -> visit e t f st = Ok st' ->
  valid_beliefs B0 n (qs_seq st').
Proof.
  intros Ht Hf Hvalid Hvisit. unfold visit in Hvisit. cbv zeta in Hvisit.
  apply bind_Ok in Hvisit as (p & Hp & Hvisit).
  apply bind_Ok in Hvisit as (q & Hq & Hvisit).
  pose proof (likelihood_message_length _ _ _ _ _ _ _ _ _ _ t f (qs_seq st)
                Hpre Hshape Hf) as HlnA.
  pose proof (past_message_length _ _ _ _ _ _ _ _ _ _ _ _ _ _ Hpre Hshape Hf Hp) as Hlp.
  pose proof (future_message_length _ _ _ _ _ _ _ _ _ _ _ _ _ _ Hpre Hf Hq) as Hlq.
  pose proof (proj1 (Forall_lookup_total _ _) Hpos f Hf) as Hk. cbn beta in Hk.
  destruct Hvalid as [Hlen Hqs]. destruct (Hqs t Ht) as [_ Hbel].
  destruct (Hbel f Hf) as [Hcur _].
  assert (forall v st1, length v = shape0 (B0 !!! f) ->
            qs_seq st1 = write (qs_seq st) t f (softmax v) ->
            valid_beliefs B0 n (qs_seq st1)) as Hwrite.
  { intros v st1 Hv ->. apply valid_beliefs_write; [done..| |].
    - cbn. by rewrite spec_softmax_length.
    - apply spec_softmax_distribution. lia. }
  destruct (grad_descent e).
  - destruct (decide _); injection Hvisit as <-; (eapply Hwrite; [|reflexivity]);
      autorewrite with vec_length; lia.
  - injection Hvisit as <-. eapply Hwrite; [|reflexivity].
    autorewrite with vec_length. lia.
Qed.

Lemma timestep_valid_beliefs t st st' :
  t < n -> valid_beliefs B0 n (qs_seq st) -> timestep e t st = Ok st' ->
  valid_beliefs B0 n (qs_seq st').
Proof.
  intros Ht Hvalid Hstep. unfold timestep in Hstep.
  apply bind_Ok in Hstep as (st1 & Hloop & Hstep).
  assert (valid_beliefs B0 n (qs_seq st1)) as Hvalid1.
  { unfold for_range in Hloop.
    apply (for_each_invariant (fun s => valid_beliefs B0 n (qs_seq s))) in Hloop;
      [done| |done].
    intros f s s' Hf%elem_of_seq Hs Hvisit.
    apply (visit_valid_beliefs t f s s'); [done| |done|done].
    apply preprocess_Ok in Hpre as (TB & P & _ & _ & _ & Hrec).
    rewrite Hrec in Hf. cbn in Hf. lia. }
  by destruct (grad_descent e); injection Hstep as <-.
Qed.

Lemma sweeps_valid_beliefs num_iter st :
  for_range num_iter (sweep e) (initial_state e) = Ok st ->
  valid_beliefs B0 n (qs_seq st).
Proof.
  unfold for_range. intros Hrun.
  apply (for_each_invariant (fun s => valid_beliefs B0 n (qs_seq s))) in Hrun; [done| |].
  - intros itr s s' _ Hs Hsweep. unfold sweep, for_range in Hsweep.
    apply (for_each_invariant (fun s => valid_beliefs B0 n (qs_seq s))) in Hsweep;
      [done| |done].
    intros t s1 s2 Ht%elem_of_seq Hs1 Hstep.
    apply (timestep_valid_beliefs t s1 s2); [lia|done|done].
  - unfold initial_state. cbn.
    pose proof Hpre as (TB & P & _ & _ & _ & Hrec)%preprocess_Ok.
    replace (num_states e) with (shape0 <$> B0) by by rewrite Hrec.
    by apply initial_beliefs_valid.
Qed.
End Validity.

(** C3.  With the softmax the specification describes, whatever the number
    of sweeps and whichever the update rule, a call on well-shaped
    arguments whose factors each have a state returns [infer_len]
    timesteps of beliefs in which every [qs_seq[t][f]] has
    [num_states[f]] entries, all non-negative, that sum to 1. *)
Theorem beliefs_stay_distributions A B0 ll pol prev pri num_iter gd tau0 final qs Fv :
  WellShaped B0 ll pol prev pri ->
  Forall (fun Bf => 0 < shape0 Bf) B0 ->
  run_mmp_v2 A B0 ll pol prev pri num_iter gd tau0 final = Ok (qs, Fv) ->
  valid_beliefs B0 (Z.to_nat (window (length ll) (length (a_rows pol)) final).1) qs.
Proof.
  intros Hshape Hpos Hrun. unfold run_mmp_v2 in Hrun.
  apply bind_Ok in Hrun as (e & Hpre & Hrun).
  apply bind_Ok in Hrun as (st & Hloop & Hrun). injection Hrun as <- <-.
  pose proof (sweeps_valid_beliefs A B0 ll pol prev pri gd tau0 final e
                Hpre Hshape Hpos num_iter st Hloop) as Hvalid.
  apply preprocess_Ok in Hpre as (TB & P & _ & _ & _ & Hrec).
  by rewrite Hrec in Hvalid.
Qed.

Lemma beliefs_stay_distributions_witness :
  exists qs Fv,
    run_mmp_v2 [] B_keep [ll_flat] (policy_of [0%Q]) None None 1 true (1/4)%R false
      = Ok (qs, Fv) /\
    valid_beliefs B_keep 2 qs.
Proof.
  eexists. eexists. split; [run_model; reflexivity|].
  eapply (beliefs_stay_distributions
            [] B_keep [ll_flat] (policy_of [0%Q]) None None 1 true (1/4)%R false).
  - split; cbn; repeat constructor.
  - repeat constructor.
  - run_model. reflexivity.
Defined.

(** ** Uniform beliefs (lines 72-109) *)

Section Sums.
Local Open Scope R_scope.

Lemma big_sum_ext n (g h : nat -> R) :
  (forall j, (j < n)%nat -> g j = h j) -> big_sum n g = big_sum n h.
Proof.
  intros Hext. unfold big_sum. f_equal. apply list_fmap_ext.
  intros i j [-> Hi]%lookup_seq. by apply Hext.
Qed.

Lemma big_sum_mult_r n (g : nat -> R) c :
  big_sum n (fun j => g j * c) = big_sum n g * c.
Proof.
  unfold big_sum. induction (seq 0 n) as [|j js IH]; [cbn; lra|].
  rewrite !fmap_cons, !sum_cons, IH. lra.
Qed.

Lemma fmap_seq_const {A} (g : nat -> A) n c :
  (forall i, (i < n)%nat -> g i = c) -> g <$> seq 0 n = replicate n c.
Proof.
  intros Hg. apply list_eq. intros i. rewrite list_lookup_fmap.
  destruct (decide (i < n)%nat) as [Hi|Hi].
  - rewrite lookup_seq_lt by done. cbn. rewrite Hg by done.
    symmetry. by apply lookup_replicate_2.
  - rewrite lookup_seq_ge by lia. cbn. symmetry.
    apply lookup_ge_None. rewrite length_replicate. lia.
Qed.

Lemma big_sum_const n c : big_sum n (fun _ => c) = INR n * c.
Proof.
  unfold big_sum. rewrite fmap_seq_const with (c := c) by done.
  apply sum_replicate.
Qed.

Lemma ones_div_lookup n j : (j < n)%nat -> ones_div n !!! j = 1 / INR n.
Proof. intros Hj. by apply lookup_total_replicate_2. Qed.

Lemma big_sum_ones_div n : (0 < n)%nat -> big_sum n (fun k => ones_div n !!! k) = 1.
Proof.
  intros Hn. rewrite (big_sum_ext _ _ (fun _ => 1 / INR n)).
  - rewrite big_sum_const. field. apply not_0_INR. lia.
  - intros j Hj. by apply ones_div_lookup.
Qed.

(** A matrix whose rows sum to 1 maps the uniform vector to the uniform one. *)
Lemma mdot_ones_div M :
  (forall i, (i < m_rows M)%nat -> big_sum (m_cols M) (m_at M i) = 1) ->
  mdot M (ones_div (m_cols M)) = replicate (m_rows M) (1 / INR (m_cols M)).
Proof.
  intros Hrows. unfold mdot. apply fmap_seq_const. intros i Hi.
  rewrite (big_sum_ext _ _ (fun j => m_at M i j * (1 / INR (m_cols M)))).
  - rewrite big_sum_mult_r, Hrows by done. lra.
  - intros j Hj. by rewrite ones_div_lookup.
Qed.

Lemma spec_softmax_replicate n x :
  (0 < n)%nat -> SpecMaths.softmax (replicate n x) = ones_div n.
Proof.
  intros Hn. unfold SpecMaths.softmax, SpecMaths.normalize, div_scalar, ones_div.
  rewrite !fmap_replicate, sum_replicate. f_equal.
  pose proof (exp_pos x). field. split; [|lra]. apply not_0_INR. lia.
Qed.

(** Contracting a flat tensor with beliefs that each sum to 1 leaves its
    entry. *)
Lemma contract_flat shape g f i (qs : list vec) X idx c :
  (forall idx, X idx = c) ->
  (forall j n, shape !! j = Some n ->
     big_sum n (fun k => (qs !!! (g + j)%nat) !!! k) = 1) ->
  SpecMaths.contract shape g f i qs X idx = c.
Proof.
  intros HX. revert g idx.
  induction shape as [|n shape IH]; intros g idx Hqs; [apply HX|].
  cbn. destruct (decide (g = f)) as [->|Hne].
  - apply IH. intros j m Hj. replace (S f + j)%nat with (f + S j)%nat by lia.
    by apply Hqs.
  - rewrite (big_sum_ext _ _ (fun k => (qs !!! g) !!! k * c)).
    + rewrite big_sum_mult_r. specialize (Hqs 0%nat n eq_refl).
      rewrite Nat.add_0_r in Hqs. rewrite Hqs. lra.
    + intros k _. f_equal. apply IH. intros j m Hj.
      replace (S g + j)%nat with (g + S j)%nat by lia. by apply Hqs.
Qed.
End Sums.

Section Replicate.
Local Open Scope R_scope.

Lemma add_replicate n x y : add (replicate n x) (replicate n y) = replicate n (x + y).
Proof. apply zip_with_replicate. Qed.
Lemma sub_replicate n x y : sub (replicate n x) (replicate n y) = replicate n (x - y).
Proof. apply zip_with_replicate. Qed.
Lemma scale_replicate n c x : scale c (replicate n x) = replicate n (c * x).
Proof. apply fmap_replicate. Qed.
Lemma shift_replicate n x c : shift (replicate n x) c = replicate n (x - c).
Proof. apply (fmap_replicate (fun x => x - c)). Qed.
Lemma log_floor_replicate n x : log_floor (replicate n x) = replicate n (ln (x + eps)).
Proof. apply (fmap_replicate (fun x => ln (x + eps))). Qed.
End Replicate.

Create Rewrite HintDb replicate_ops.
#[global] Hint Rewrite add_replicate sub_replicate scale_replicate shift_replicate
  log_floor_replicate : replicate_ops.

Lemma write_same (qs : list (list vec)) t f :
  t < length qs -> f < length (qs !!! t) -> write qs t f ((qs !!! t) !!! f) = qs.
Proof.
  intros Ht Hf. unfold write. apply list_insert_id.
  rewrite list_insert_id; by apply list_lookup_lookup_total_lt.
Qed.

Lemma axis_index_Ok n k u : axis_index n k = Ok u -> u < n.
Proof.
  unfold axis_index. destruct (decide _); [intros [= <-]; lia|].
  destruct (decide _); [intros [= <-]; lia|done].
Qed.

Section Uniform.
Variables (A : list tensor) (B0 : list ndarray3) (ll : list tensor)
  (pol : actions) (prev : option actions) (pri : option (list vec))
  (gd : bool) (tau0 : R) (final : bool) (e : env).
Hypothesis Hpre : preprocess A B0 ll pol prev pri gd tau0 final = Ok e.
Hypothesis Hshape : WellShaped B0 ll pol prev pri.
Hypothesis Hpos : Forall (fun Bf => 0 < shape0 Bf) B0.
Hypothesis Hflat : Forall flat ll.
Hypothesis Hprior :
  match pri with Some p => p = ones_div <$> (shape0 <$> B0) | None => True end.
Hypothesis Hstoch : Forall stochastic B0.
Hypothesis Hunif : Forall keeps_uniform B0.

Variable n : nat.
Hypothesis Hn : n = Z.to_nat (infer_len e).

Local Abbreviation init := (initial_beliefs n (shape0 <$> B0)).

Lemma init_lookup t f :
  t < n -> f < length B0 -> (init !!! t) !!! f = ones_div (shape0 (B0 !!! f)).
Proof.
  intros Ht Hf.
  rewrite initial_beliefs_lookup by (rewrite ?length_fmap; done).
  by rewrite num_states_lookup.
Qed.

Lemma init_row_sum t j m :
  t < n -> (shape0 <$> B0) !! j = Some m ->
  big_sum m (fun k => ((init !!! t) !!! j) !!! k) = 1%R.
Proof.
  intros Ht Hj. rewrite list_lookup_fmap in Hj.
  destruct (B0 !! j) as [Bf|] eqn:HBf; [|done]. injection Hj as <-.
  assert (j < length B0) as Hlt by (apply lookup_lt_is_Some; eauto).
  rewrite init_lookup by done. rewrite (list_lookup_total_correct _ _ _ HBf).
  apply big_sum_ones_div. by apply (proj1 (Forall_lookup _ _) Hpos j Bf).
Qed.

Lemma likelihood_message_uniform t f :
  t < n -> f < length B0 ->
  exists a, likelihood_message e t f init = replicate (shape0 (B0 !!! f)) a.
Proof.
  intros Ht Hf. destruct Hshape as [_ Hll _ _ _ _].
  pose proof Hpre as (TB & P & _ & _ & _ & Hrec)%preprocess_Ok.
  unfold likelihood_message. rewrite Hrec. cbn. destruct (decide _) as [Hlt|Hge].
  - pose proof (proj1 (Forall_lookup_total _ _) Hll t Hlt) as HX. cbn beta in HX.
    destruct (proj1 (Forall_lookup_total _ _) Hflat t Hlt) as [c Hc].
    exists (ln (c + eps)). rewrite <- log_floor_replicate. f_equal.
    unfold SpecMaths.spm_dot. rewrite HX, num_states_lookup by done.
    apply fmap_seq_const. intros i _. apply contract_flat; [done|].
    intros j m Hj. by apply init_row_sum.
  - exists 0%R. by rewrite num_states_lookup.
Qed.

Lemma past_message_uniform t f p :
  t < n -> f < length B0 ->
  past_message e t f init = Ok p ->
  exists b, p = replicate (shape0 (B0 !!! f)) b.
Proof.
  intros Ht Hf. destruct Hshape as [Hsq _ _ _ _ _].
  pose proof Hpre as (TB & P & _ & _ & _ & Hrec)%preprocess_Ok.
  unfold past_message. destruct (decide _) as [->|Hne].
  - intros [= <-]. rewrite Hrec. cbn.
    assert (default (ones_div <$> (shape0 <$> B0)) pri = ones_div <$> (shape0 <$> B0))
      as -> by (destruct pri; by cbn).
    pose proof (init_lookup 0 f Ht Hf) as Hinit. unfold initial_beliefs in Hinit.
    rewrite lookup_total_replicate_2 in Hinit by done. rewrite Hinit.
    eexists. apply log_floor_replicate.
  - unfold predecessor_message. rewrite Hrec. cbn. intros (a & _ & Hp)%bind_Ok.
    apply bind_Ok in Hp as (M & HM & Hp). injection Hp as <-.
    unfold slice_action in HM. apply bind_Ok in HM as (u & Hu%axis_index_Ok & HM).
    injection HM as <-. rewrite init_lookup by (done || lia).
    pose proof (proj1 (Forall_lookup_total _ _) Hsq f Hf) as Hsqf. cbn beta in Hsqf.
    pose proof (proj1 (Forall_lookup_total _ _) Hunif f Hf) as Hrows.
    replace (ones_div (shape0 (B0 !!! f)))
      with (ones_div (m_cols (slice (B0 !!! f) u))) by (cbn; by rewrite Hsqf).
    rewrite mdot_ones_div; [|intros i Hi; by apply Hrows].
    eexists. apply log_floor_replicate.
Qed.
Lemma future_message_uniform t f q :
  t < n -> f < length B0 ->
  future_message e t f init = Ok q ->
  exists c, q = replicate (shape0 (B0 !!! f)) c.
Proof.
  intros Ht Hf. destruct Hshape as [Hsq _ _ _ _ _].
  pose proof Hpre as (TB & P & HTB & _ & _ & Hrec)%preprocess_Ok.
  unfold future_message. destruct (decide _) as [Hcut|Hcut].
  - intros [= <-]. rewrite Hrec. cbn. rewrite terminal_message_zeros by done.
    by exists 0%R.
  - assert (t + 1 < n) as Ht1.
    { rewrite Hn. rewrite Hrec in Hcut |- *. cbn in Hcut |- *. destruct final; cbn; lia. }
    unfold successor_message. rewrite Hrec. cbn. intros (a & _ & Hq)%bind_Ok.
    apply bind_Ok in Hq as (M & HM & Hq). injection Hq as <-.
    unfold slice_action in HM. apply bind_Ok in HM as (u & Hu%axis_index_Ok & HM).
    injection HM as <-. rewrite init_lookup by done.
    pose proof (proj1 (Forall_lookup_total _ _) Hsq f Hf) as Hsqf. cbn beta in Hsqf.
    pose proof (proj1 (Forall_lookup_total _ _) Hstoch f Hf) as Hcols.
    destruct (lookup_lt_is_Some_2 _ _ Hf) as [Bf HBf].
    pose proof (transposed_transitions_Forall2 _ _ HTB) as Hall.
    destruct (Forall2_lookup_l _ _ _ _ _ Hall HBf) as (T & HT & Htrans).
    rewrite (list_lookup_total_correct _ _ _ HT) in Hu |- *.
    rewrite (list_lookup_total_correct _ _ _ HBf) in Hsqf, Hcols |- *.
    destruct (transposed_transition_Ok spec_spm_norm_keeps_shape Bf Hsqf)
      as (T' & HT' & H0 & H1 & H2 & Hat).
    rewrite Htrans in HT'. injection HT' as <-. rewrite H2 in Hu.
    replace (ones_div (shape0 Bf)) with (ones_div (m_cols (slice T u)))
      by (cbn; by rewrite H1, Hsqf).
    rewrite mdot_ones_div.
    + cbn [m_rows m_cols m_at slice]. rewrite H0, H1, <- Hsqf.
      eexists. apply log_floor_replicate.
    + cbn [m_rows m_cols m_at slice]. intros i Hi. rewrite H1.
      rewrite (big_sum_ext _ _ (fun j => at3 Bf j i u)).
      * rewrite <- Hsqf. apply Hcols; [done|]. by rewrite <- Hsqf, <- H0.
      * intros j Hj. rewrite Hat by done.
        cbn [spm_norm spec_maths SpecMaths.spm_norm m_at m_cols m_rows transpose slice].
        rewrite (Hcols u i Hu) by (by rewrite <- Hsqf, <- H0). lra.
Qed.

Lemma write_uniform t f x :
  t < n -> f < length B0 ->
  write init t f (softmax (replicate (shape0 (B0 !!! f)) x)) = init.
Proof.
  intros Ht Hf.
  pose proof (proj1 (Forall_lookup_total _ _) Hpos f Hf) as Hk. cbn beta in Hk.
  cbn [softmax spec_maths]. rewrite spec_softmax_replicate by done.
  rewrite <- (init_lookup t f Ht Hf). apply write_same.
  - unfold initial_beliefs. by rewrite length_replicate.
  - unfold initial_beliefs. rewrite lookup_total_replicate_2 by done.
    by rewrite !length_fmap.
Qed.

Lemma visit_uniform t f st st' :
  t < n -> f < length B0 ->
  qs_seq st = init -> visit e t f st = Ok st' -> qs_seq st' = init.
Proof.
  intros Ht Hf Hinit Hvisit. unfold visit in Hvisit. cbv zeta in Hvisit.
  rewrite Hinit in Hvisit.
  apply bind_Ok in Hvisit as (p & Hp & Hvisit).
  apply bind_Ok in Hvisit as (q & Hq & Hvisit).
  destruct (likelihood_message_uniform t f Ht Hf) as [a Ha].
  destruct (past_message_uniform t f p Ht Hf Hp) as [b ->].
  destruct (future_message_uniform t f q Ht Hf Hq) as [c ->].
  destruct (grad_descent e);
    [destruct (decide (t = 0 \/ Z.of_nat t = (infer_len e - 1)%Z))|];
    injection Hvisit as <-; cbn [qs_seq];
    rewrite Ha, ?(init_lookup t f Ht Hf); unfold ones_div;
    autorewrite with replicate_ops; by apply write_uniform.
Qed.
Lemma sweeps_uniform num_iter st :
  for_range num_iter (sweep e) (initial_state e) = Ok st -> qs_seq st = init.
Proof.
  pose proof Hpre as (TB & P & _ & _ & _ & Hrec)%preprocess_Ok.
  unfold for_range. intros Hrun.
  apply (for_each_invariant (fun s => qs_seq s = init)) in Hrun; [done| |].
  - intros itr s s' _ Hs Hsweep. unfold sweep, for_range in Hsweep.
    apply (for_each_invariant (fun s => qs_seq s = init)) in Hsweep; [done| |done].
    intros t s1 s2 Ht%elem_of_seq Hs1 Hstep. unfold timestep in Hstep.
    apply bind_Ok in Hstep as (s3 & Hloop & Hstep).
    assert (qs_seq s3 = init) as Hs3.
    { unfold for_range in Hloop.
      apply (for_each_invariant (fun s => qs_seq s = init)) in Hloop; [done| |done].
      intros f s4 s5 Hf%elem_of_seq Hs4 Hvisit.
      apply (visit_uniform t f s4 s5); [rewrite Hn; lia| |done|done].
      rewrite Hrec in Hf. cbn in Hf. lia. }
    by destruct (grad_descent e); injection Hstep as <-.
  - unfold initial_state. rewrite Hn. cbn. by rewrite Hrec.
Qed.
End Uniform.

(** C8, as amended.  With the helpers the specification describes, when
    every entry of [ll_seq] is flat, [prior] is uniform, and every action
    slice of every [B[f]] has rows that sum to 1 as well as columns, the
    beliefs a call returns are the initial uniform ones, whatever the
    number of iterations, the policy and the update rule. *)
Theorem uniform_beliefs_stay_uniform A B0 ll pol prev pri num_iter gd tau0 final qs Fv :
  WellShaped B0 ll pol prev pri ->
  Forall (fun Bf => 0 < shape0 Bf) B0 ->
  Forall flat ll ->
  match pri with Some p => p = ones_div <$> (shape0 <$> B0) | None => True end ->
  Forall stochastic B0 ->
  Forall keeps_uniform B0 ->
  run_mmp_v2 A B0 ll pol prev pri num_iter gd tau0 final = Ok (qs, Fv) ->
  let n := Z.to_nat (window (length ll) (length (a_rows pol)) final).1 in
  length qs = n /\
  forall t f, t < n -> f < length B0 ->
    (qs !!! t) !!! f = replicate (shape0 (B0 !!! f)) (1 / INR (shape0 (B0 !!! f)))%R.
Proof.
  intros Hshape Hpos Hflat Hprior Hstoch Hunif Hrun n. unfold run_mmp_v2 in Hrun.
  apply bind_Ok in Hrun as (e & Hpre & Hrun).
  apply bind_Ok in Hrun as (st & Hloop & Hrun). injection Hrun as <- <-.
  rewrite (sweeps_uniform A B0 ll pol prev pri gd tau0 final e
             Hpre Hshape Hpos Hflat Hprior Hstoch Hunif _ eq_refl num_iter st Hloop).
  apply preprocess_Ok in Hpre as (TB & P & _ & _ & _ & ->). cbn. fold n.
  split; [apply length_replicate|]. intros t f Ht Hf.
  rewrite initial_beliefs_lookup by (rewrite ?length_fmap; done).
  by rewrite num_states_lookup.
Qed.

Lemma uniform_beliefs_stay_uniform_witness :
  exists qs Fv,
    run_mmp_v2 [] B_keep [ll_flat] (policy_of [0%Q]) None None 1 false (1/4)%R false
      = Ok (qs, Fv) /\
    (qs !!! 1) !!! 0 = [1 / INR 2; 1 / INR 2]%R.
Proof.
  eexists. eexists. split; [run_model; reflexivity|].
  eapply (uniform_beliefs_stay_uniform
            [] B_keep [ll_flat] (policy_of [0%Q]) None None 1 false (1/4)%R false).
  - split; cbn; repeat constructor.
  - repeat constructor.
  - repeat constructor. by exists (1 / 2)%R.
  - exact I.
  - repeat constructor. intros u j Hu Hj; cbn in Hu, Hj; destruct j as [|[|j]]; [| |lia]; run_model; lra.
  - repeat constructor. intros u i Hu Hi; cbn in Hu, Hi; destruct i as [|[|i]]; [| |lia]; run_model; lra.
  - run_model. reflexivity.
  - cbn. lia.
  - cbn. lia.
Defined.

Lemma stochastic_B_sink : Forall stochastic B_sink.
Proof.
  repeat constructor. intros u j Hu Hj; cbn in Hu, Hj; destruct j as [|[|j]]; [| |lia]; run_model; lra.
Qed.

(** C8 as stated fails.  [B_sink] is a valid transition array (each
    column of its slice sums to 1) that leads to state 0 from both states.
    With a flat likelihood and the uniform prior, one iteration leaves
    [qs_seq[1][0]] non-uniform: its past message is the log of
    [B[0][:, :, 0]] applied to the uniform belief, which is (1, 0). *)
Lemma sink_transition_breaks_uniformity :
  Forall stochastic B_sink /\
  flat ll_flat /\
  exists qs Fv,
    run_mmp_v2 [] B_sink [ll_flat] (policy_of [0%Q]) None None 1 false (1/4)%R false
      = Ok (qs, Fv) /\
    (qs !!! 1) !!! 0 <> replicate 2 (1 / INR 2)%R.
Proof.
  split; [apply stochastic_B_sink|]. split; [by exists (1 / 2)%R|].
  eexists. eexists. split; [run_model; reflexivity|].
  run_model. intros [= H0 H1].
  pose proof (eq_trans H0 (eq_sym H1)) as Heq. clear H0 H1.
  match type of Heq with
  | (exp ?a / ?s = exp ?b / _)%R =>
      set (x0 := a) in *; set (x1 := b) in *;
      pose proof (exp_pos x0); pose proof (exp_pos x1);
      assert (exp x0 = exp x1) as Hexp
        by (unfold Rdiv in Heq; apply Rmult_eq_reg_r in Heq; [done|];
            apply Rinv_neq_0_compat; lra)
  end.
  apply exp_inv in Hexp. unfold x0, x1 in Hexp.
  match type of Hexp with
  | (0 + ln (1 * ?w + _ + eps) + 0 = _)%R => set (W := w) in *
  end.
  assert (0 < W)%R as HW.
  { unfold W. match goal with
              | |- (0 < exp ?a / _)%R => pose proof (exp_pos a)
              end.
    apply Rdiv_lt_0_compat; lra. }
  pose proof eps_pos as Heps.
  assert (ln (1 * W + (1 * W + 0) + eps) = ln (0 * W + (0 * W + 0) + eps)) as Hln by lra.
  apply ln_inv in Hln; lra.
Qed.

(** * Further properties of [run_mmp_v2] *)

Import MoreExamples.

(** ** Shape and frame of the sweeps (lines 38-44, 72-109) *)

Lemma for_each_agree {X S1 S2 : Type} (R : S1 -> S2 -> Prop) (xs : list X)
  (body1 : X -> S1 -> result S1) (body2 : X -> S2 -> result S2) s1 s2 :
  (forall x s1 s2, x ∈ xs -> R s1 s2 -> agree R (body1 x s1) (body2 x s2)) ->
  R s1 s2 -> agree R (for_each xs body1 s1) (for_each xs body2 s2).
Proof.
  revert s1 s2. induction xs as [|x xs IH]; intros s1 s2 Hbody HR; [done|].
  cbn. pose proof (Hbody x s1 s2 ltac:(left) HR) as Hx.
  destruct (body1 x s1) as [t1|e1], (body2 x s2) as [t2|e2]; cbn in *; try done.
  apply IH; [|done]. intros y u1 u2 Hy. apply Hbody. by right.
Qed.

Section Shape.
Context `{Maths}.

Lemma visit_writes e t f st st' :
  visit e t f st = Ok st' ->
  exists v, qs_seq st' = write (qs_seq st) t f v.
Proof.
  unfold visit. cbv zeta. intros (p & _ & Hvisit)%bind_Ok.
  apply bind_Ok in Hvisit as (q & _ & Hvisit).
  destruct (grad_descent e); [destruct (decide _)|];
    injection Hvisit as <-; by eexists.
Qed.

(** A pass of the timestep loop keeps the shape of [qs_seq]. *)
Lemma timestep_lengths e t st st' :
  timestep e t st = Ok st' ->
  length (qs_seq st') = length (qs_seq st) /\
  (forall t', length (qs_seq st' !!! t') = length (qs_seq st !!! t')).
Proof.
  unfold timestep. intros (st1 & Hloop & Hstep)%bind_Ok.
  assert (qs_seq st' = qs_seq st1) as -> by
    (by destruct (grad_descent e); injection Hstep as <-).
  unfold for_range in Hloop.
  apply (for_each_invariant
           (fun s => length (qs_seq s) = length (qs_seq st) /\
                     (forall t', length (qs_seq s !!! t') = length (qs_seq st !!! t'))))
    in Hloop; [done| |done].
  intros f s s' _ (Hlen & Hrow) [v ->]%visit_writes. split.
  - by rewrite length_write.
  - intros t'. by rewrite length_write_row.
Qed.

(** X2.  A pass of the timestep loop rewrites beliefs of its own timestep only:
    the beliefs of every other timestep are what they were. *)
Theorem timestep_frame e t st st' t' :
  timestep e t st = Ok st' -> t' <> t ->
  qs_seq st' !!! t' = qs_seq st !!! t'.
Proof.
  unfold timestep. intros (st1 & Hloop & Hstep)%bind_Ok Hne.
  assert (qs_seq st' = qs_seq st1) as -> by
    (by destruct (grad_descent e); injection Hstep as <-).
  unfold for_range in Hloop.
  apply (for_each_invariant (fun s => qs_seq s !!! t' = qs_seq st !!! t'))
    in Hloop; [done| |done].
  intros f s s' _ Hother [v ->]%visit_writes.
  rewrite <- Hother. unfold write. by rewrite list_lookup_total_insert_ne.
Qed.

(** X3.  The beliefs a call returns have [infer_len] timesteps of [num_factors]
    entries each. *)
Theorem returned_beliefs_shape A B0 ll pol prev pri num_iter gd tau0 final qs Fv :
  run_mmp_v2 A B0 ll pol prev pri num_iter gd tau0 final = Ok (qs, Fv) ->
  Z.of_nat (length qs) = (window (length ll) (length (a_rows pol)) final).1 /\
  Forall (fun row => length row = length B0) qs.
Proof.
  unfold run_mmp_v2. intros (e & Hpre & Hrun)%bind_Ok.
  apply bind_Ok in Hrun as (st & Hloop & Hrun). injection Hrun as <- <-.
  pose proof Hpre as (TB & P & _ & _ & Hwin & Hrec)%preprocess_Ok.
  unfold for_range in Hloop.
  apply (for_each_invariant
           (fun s => length (qs_seq s) = Z.to_nat (infer_len e) /\
                     Forall (fun row => length row = length B0) (qs_seq s)))
    in Hloop.
  - destruct Hloop as [Hlen Hrows]. split; [|done].
    rewrite Hlen, Hrec. cbn [infer_len]. lia.
  - intros itr s s' _ Hs Hsweep. unfold sweep, for_range in Hsweep.
    apply (for_each_invariant
             (fun s => length (qs_seq s) = Z.to_nat (infer_len e) /\
                       Forall (fun row => length row = length B0) (qs_seq s)))
      in Hsweep; [done| |done].
    intros t s1 s2 _ [Hlen Hrows] (Hlen' & Hrow')%timestep_lengths.
    split; [by rewrite Hlen'|].
    apply (proj2 (Forall_lookup_total _ _)). intros t' Ht'. rewrite Hrow'.
    apply (proj1 (Forall_lookup_total _ _) Hrows). by rewrite <- Hlen'.
  - unfold initial_state, initial_beliefs. cbn. rewrite length_replicate.
    split; [done|]. apply Forall_replicate. rewrite Hrec. cbn.
    by rewrite !length_fmap.
Qed.
End Shape.

Lemma returned_beliefs_shape_witness :
  exists qs Fv,
    run_mmp_v2 [] B_swap [ll_flat] (policy_of [1%Q]) None None 1 false (1/4)%R false
      = Ok (qs, Fv) /\
    Z.of_nat (length qs) = 2%Z.
Proof.
  eassert (run_mmp_v2 [] B_swap [ll_flat] (policy_of [1%Q]) None None 1 false (1/4)%R false
           = Ok (_, _)) as Hrun by (run_model; reflexivity).
  eexists. eexists. split; [exact Hrun|].
  exact (proj1 (returned_beliefs_shape _ _ _ _ _ _ _ _ _ _ _ _ Hrun)).
Defined.

Lemma timestep_frame_witness :
  exists e st',
    preprocess [] B_swap [ll_flat] (policy_of [1%Q]) None None false (1/4)%R false
      = Ok e /\
    timestep e 1 (initial_state e) = Ok st' /\
    qs_seq st' !!! 0 = qs_seq (initial_state e) !!! 0.
Proof.
  eassert (preprocess [] B_swap [ll_flat] (policy_of [1%Q]) None None false (1/4)%R false
           = Ok _) as Hpre by (run_model; reflexivity).
  lazymatch type of Hpre with
  | _ = Ok ?e =>
      eassert (timestep e 1 (initial_state e) = Ok _) as Hstep
        by (run_model; reflexivity)
  end.
  eexists. eexists. split; [exact Hpre|]. split; [exact Hstep|].
  apply (timestep_frame _ _ _ _ 0 Hstep). lia.
Defined.

(** ** What a visit reads (lines 75-109) *)

Lemma add_zeros_l (v : vec) : add (zeros (length v)) v = v.
Proof.
  unfold add, zeros. induction v as [|x v IH]; [done|].
  cbn. rewrite IH. f_equal. lra.
Qed.

Lemma add_zeros_r (v : vec) : add v (zeros (length v)) = v.
Proof.
  unfold add, zeros. induction v as [|x v IH]; [done|].
  cbn. rewrite IH. f_equal. lra.
Qed.

Section Local.
Context `{Maths}.

(** X1.  What a visit computes depends on the beliefs of its own timestep, on
    [qs_seq[t-1][f]] when [t > 0] and on [qs_seq[t+1][f]] when
    [t < future_cutoff], and on nothing else of [qs_seq]: in two states
    that agree there, it writes the same belief and adds the same amount
    to [F], or raises the same exception. *)
Theorem visit_is_local e t f st1 st2 :
  qs_seq st1 !!! t = qs_seq st2 !!! t ->
  (t <> 0 -> (qs_seq st1 !!! (t - 1)) !!! f = (qs_seq st2 !!! (t - 1)) !!! f) ->
  ((Z.of_nat t < future_cutoff e)%Z ->
     (qs_seq st1 !!! (t + 1)) !!! f = (qs_seq st2 !!! (t + 1)) !!! f) ->
  agree (fun s1 s2 =>
           exists v,
             qs_seq s1 = write (qs_seq st1) t f v /\
             qs_seq s2 = write (qs_seq st2) t f v /\
             (F s1 - F st1 = F s2 - F st2)%R)
    (visit e t f st1) (visit e t f st2).
Proof.
  intros Hrow Hprev Hnext.
  assert (likelihood_message e t f (qs_seq st1) = likelihood_message e t f (qs_seq st2))
    as HlnA by (unfold likelihood_message; by rewrite Hrow).
  assert (past_message e t f (qs_seq st1) = past_message e t f (qs_seq st2)) as Hpast.
  { unfold past_message, predecessor_message. destruct (decide _); [done|].
    by rewrite Hprev. }
  assert (future_message e t f (qs_seq st1) = future_message e t f (qs_seq st2)) as Hfut.
  { unfold future_message, successor_message. destruct (decide _); [done|].
    rewrite Hnext; [done|lia]. }
  unfold visit. cbv zeta. rewrite HlnA, Hpast, Hfut, Hrow.
  destruct (past_message e t f (qs_seq st2)) as [p|err]; cbn; [|done].
  destruct (future_message e t f (qs_seq st2)) as [q|err]; cbn; [|done].
  destruct (grad_descent e);
    [destruct (decide (t = 0 \/ Z.of_nat t = (infer_len e - 1)%Z))|];
    cbn; eexists; (split_and!; [reflexivity|reflexivity|lra]).
Qed.

(** X4.  Inside the window everything a visit reads by position exists: the
    successor [qs_seq[t+1]] is only read below the cutoff, where [t + 1] is
    still a timestep of the window, and when [prev_actions] is absent or
    has a row per observation, so are the rows [t - 1] and [t] of the
    trajectory. *)
Theorem window_reads_in_range A B0 ll pol prev pri gd tau0 final e t :
  preprocess A B0 ll pol prev pri gd tau0 final = Ok e ->
  match prev with Some P => length (a_rows P) = length ll | None => True end ->
  (Z.of_nat t < infer_len e)%Z ->
  ((Z.of_nat t < future_cutoff e)%Z -> t + 1 < Z.to_nat (infer_len e)) /\
  (t <> 0 -> is_Some (a_rows (policy e) !! (t - 1))) /\
  ((Z.of_nat t < future_cutoff e)%Z -> is_Some (a_rows (policy e) !! t)).
Proof.
  intros (TB & P & _ & HP & _ & ->)%preprocess_Ok Hprev. cbn.
  destruct (vstack_rows _ _ _ HP) as (_ & -> & _).
  assert (length (a_rows (default (azeros (length ll) (a_cols pol)) prev)) = length ll)
    as Hrows.
  { destruct prev; cbn; [done|apply length_replicate]. }
  intros Ht. split_and!.
  - destruct final; lia.
  - intros Hne. apply lookup_lt_is_Some. rewrite length_app, Hrows.
    destruct final; lia.
  - intros Hcut. apply lookup_lt_is_Some. rewrite length_app, Hrows. lia.
Qed.

(** X5.  A window without timesteps: whatever [num_iter] and the update rule,
    the call returns no beliefs and [F = 0]. *)
Theorem empty_window_returns_nothing A B0 ll pol prev pri num_iter gd tau0 final e :
  preprocess A B0 ll pol prev pri gd tau0 final = Ok e ->
  infer_len e = 0%Z ->
  run_mmp_v2 A B0 ll pol prev pri num_iter gd tau0 final = Ok ([], 0%R).
Proof.
  intros Hpre Hlen. unfold run_mmp_v2. rewrite Hpre. cbn.
  assert (forall st, for_range num_iter (sweep e) st = Ok st) as ->.
  { assert (forall itr st, sweep e itr st = Ok st) as Hsweep
      by (intros itr st; unfold sweep; by rewrite Hlen).
    unfold for_range. induction (seq 0 num_iter) as [|itr ks IH]; intros st; [done|].
    cbn. rewrite Hsweep. apply IH. }
  unfold initial_state. by rewrite Hlen.
Qed.

(** X6.  Past the evidence and from the cutoff on, the direct rule predicts: the
    likelihood and future messages are zero vectors and the belief written
    is the softmax of the floored log of [B[f][:, :, action(t-1, f)]]
    applied to [qs_seq[t-1][f]]. *)
Theorem direct_rule_predicts A B0 ll pol prev pri tau0 final e t f st a u :
  preprocess A B0 ll pol prev pri false tau0 final = Ok e ->
  f < length B0 -> t <> 0 -> length ll <= t ->
  (Z.of_nat (length ll) + Z.of_nat (length (a_rows pol)) - 2 <= Z.of_nat t)%Z ->
  policy_at (policy e) (t - 1) f = Ok a ->
  axis_index (shape2 (B0 !!! f)) (int_trunc a) = Ok u ->
  visit e t f st =
  Ok {| qs_seq := write (qs_seq st) t f
                    (softmax (log_floor (mdot (slice (B0 !!! f) u)
                                           ((qs_seq st !!! (t - 1)) !!! f))));
        F := F st |}.
Proof.
  intros (TB & P & _ & _ & _ & ->)%preprocess_Ok Hf Ht Hpast Hcut Ha Hu.
  cbn in Ha.
  unfold visit, likelihood_message, past_message, predecessor_message, future_message.
  cbn -[log_floor mdot add zeros write slice]. rewrite Ha.
  cbn -[log_floor mdot add zeros write slice]. unfold slice_action. rewrite Hu.
  cbn -[log_floor mdot add zeros write slice].
  destruct (decide (t < length ll)); [lia|].
  destruct (decide (t = 0)); [done|].
  destruct (decide _); [|lia]. cbn -[log_floor mdot add zeros write slice].
  rewrite terminal_message_zeros, num_states_lookup by done.
  set (p := log_floor _).
  assert (length p = shape0 (B0 !!! f)) as <-.
  { unfold p. by rewrite length_log_floor, length_mdot. }
  by rewrite add_zeros_l, add_zeros_r.
Qed.
End Local.

Lemma visit_is_local_witness :
  exists e,
    preprocess [] B_swap [ll_flat] (policy_of [1%Q; 0%Q]) None None true (1/4)%R false
      = Ok e /\
    let st2 := {| qs_seq := [[[1 / INR 2; 1 / INR 2]]; [[1 / INR 2; 1 / INR 2]]; [[0; 1]]]%R;
                  F := 3%R |} in
    agree (fun s1 s2 =>
             exists v,
               qs_seq s1 = write (qs_seq (initial_state e)) 1 0 v /\
               qs_seq s2 = write (qs_seq st2) 1 0 v /\
               (F s1 - F (initial_state e) = F s2 - F st2)%R)
      (visit e 1 0 (initial_state e)) (visit e 1 0 st2).
Proof.
  eexists. split; [run_model; reflexivity|]. intros st2.
  apply (visit_is_local _ 1 0 (initial_state _) st2).
  - reflexivity.
  - intros _. reflexivity.
  - cbn. lia.
Defined.

Lemma window_reads_in_range_witness :
  exists e,
    preprocess [] B_swap [ll_flat] (policy_of [1%Q; 0%Q]) None None true (1/4)%R false
      = Ok e /\
    is_Some (a_rows (policy e) !! 0).
Proof.
  eexists. split; [run_model; reflexivity|].
  eapply (window_reads_in_range
            [] B_swap [ll_flat] (policy_of [1%Q; 0%Q]) None None true (1/4)%R false _ 1);
    [run_model; reflexivity | exact I | cbn; lia | lia].
Defined.

Lemma empty_window_returns_nothing_witness :
  run_mmp_v2 [] B_swap [ll_flat] (policy_of []) None None 5 true (1/4)%R true
  = Ok ([], 0%R).
Proof.
  eapply (empty_window_returns_nothing
            [] B_swap [ll_flat] (policy_of []) None None 5 true (1/4)%R true);
    [run_model; reflexivity | reflexivity].
Defined.

Lemma direct_rule_predicts_witness :
  exists e st',
    preprocess [] B_swap [ll_flat] (policy_of [1%Q; 0%Q]) (Some (policy_of [1%Q])) None
      false (1/4)%R false = Ok e /\
    visit e 1 0 (initial_state e) = Ok st' /\
    (qs_seq st' !!! 1) !!! 0 =
    softmax (log_floor (mdot (slice (B_swap !!! 0) 1) [1 / INR 2; 1 / INR 2]%R)).
Proof.
  eexists. eexists. split; [run_model; reflexivity|].
  split.
  - eapply (direct_rule_predicts
              [] B_swap [ll_flat] (policy_of [1%Q; 0%Q]) (Some (policy_of [1%Q])) None
              (1/4)%R false _ 1 0 _ 1%Q 1);
      [run_model; reflexivity | cbn; lia | lia | cbn; lia | cbn; lia
      | reflexivity | reflexivity].
  - reflexivity.
Defined.

(** ** The trajectory (lines 64-67, 85, 92) *)

Section Trajectory.
Context `{Maths}.

Lemma predecessor_message_selected e t f qs :
  predecessor_message e t f qs =
  (M ← selected_slice (policy e) (B e !!! f) (t - 1) f;
   Ok (log_floor (mdot M ((qs !!! (t - 1)) !!! f)))).
Proof.
  unfold predecessor_message, selected_slice.
  by destruct (policy_at (policy e) (t - 1) f).
Qed.

Lemma successor_message_selected e t f qs :
  successor_message e t f qs =
  (M ← selected_slice (policy e) (trans_B e !!! f) t f;
   Ok (log_floor (mdot M ((qs !!! (t + 1)) !!! f)))).
Proof.
  unfold successor_message, selected_slice.
  by destruct (policy_at (policy e) t f).
Qed.

(** The loops see a trajectory only through the slices its entries select,
    and only through the entries of the rows they use. *)
Lemma loops_set_policy e P' k st :
  (forall t f, (Z.of_nat t < infer_len e)%Z -> f < num_factors e -> t <> 0 ->
     selected_slice P' (B e !!! f) (t - 1) f
     = selected_slice (policy e) (B e !!! f) (t - 1) f) ->
  (forall t f, (Z.of_nat t < infer_len e)%Z -> f < num_factors e ->
     (Z.of_nat t < future_cutoff e)%Z ->
     selected_slice P' (trans_B e !!! f) t f
     = selected_slice (policy e) (trans_B e !!! f) t f) ->
  for_range k (sweep (set_policy e P')) st = for_range k (sweep e) st.
Proof.
  intros Hpast Hfut. unfold for_range. apply for_each_ext. intros itr s _.
  unfold sweep, for_range. cbn [infer_len set_policy]. apply for_each_ext.
  intros t s1 Ht%elem_of_seq. unfold timestep, for_range.
  cbn [num_factors grad_descent set_policy].
  rewrite (for_each_ext _ (visit (set_policy e P') t) (visit e t)); [done|].
  intros f s2 Hf%elem_of_seq. unfold visit, past_message, future_message.
  rewrite !predecessor_message_selected, !successor_message_selected.
  cbn [set_policy policy B trans_B future_cutoff infer_len grad_descent num_factors tau].
  destruct (decide (t = 0)) as [Ht0|Ht0];
    destruct (decide (future_cutoff e <= Z.of_nat t)%Z) as [Hcut|Hcut];
    rewrite ?Hpast, ?Hfut by lia; reflexivity.
Qed.
End Trajectory.

Section UnusedRow.
Context `{Maths}.

Lemma preprocess_other_policy A B0 ll pol pol' prev pri gd tau0 final :
  a_cols pol' = a_cols pol ->
  length (a_rows pol') = length (a_rows pol) ->
  preprocess A B0 ll pol' prev pri gd tau0 final =
  match preprocess A B0 ll pol prev pri gd tau0 final with
  | Ok e =>
      Ok (set_policy e
            {| a_cols := a_cols pol;
               a_rows := a_rows (default (azeros (length ll) (a_cols pol)) prev)
                         ++ a_rows pol' |})
  | Raise err => Raise err
  end.
Proof.
  intros Hcols Hrows. unfold preprocess, get_model_dimensions. cbn.
  rewrite Hrows, Hcols.
  destruct (decide _); [done|].
  destruct (transposed_transitions B0) as [TB|err]; cbn; [|done].
  assert (match prev with Some p => p | None => azeros (length ll) (a_cols pol) end
          = default (azeros (length ll) (a_cols pol)) prev) as -> by by destruct prev.
  unfold vstack.
  destruct (decide (_ = a_cols pol')) as [Hd|Hd], (decide (_ = a_cols pol)) as [Hd'|Hd'];
    cbn; try done; try congruence.
  by rewrite Hcols.
Qed.

(** X7.  The last row of [policy] is never used as an index: when
    [prev_actions] is absent or has at least a row per observation, two
    policies of the same shape that differ at most in their last row give
    the same result, or the same exception. *)
Theorem last_policy_row_is_unused A B0 ll pol pol' prev pri num_iter gd tau0 final :
  a_cols pol' = a_cols pol ->
  length (a_rows pol') = length (a_rows pol) ->
  (forall r, r + 1 < length (a_rows pol) -> a_rows pol' !! r = a_rows pol !! r) ->
  match prev with Some P => length ll <= length (a_rows P) | None => True end ->
  run_mmp_v2 A B0 ll pol' prev pri num_iter gd tau0 final
  = run_mmp_v2 A B0 ll pol prev pri num_iter gd tau0 final.
Proof.
  intros Hcols Hrows Hsame Hprev. unfold run_mmp_v2.
  rewrite (preprocess_other_policy A B0 ll pol pol') by done.
  destruct (preprocess A B0 ll pol prev pri gd tau0 final) as [e|err] eqn:Hpre; [|done].
  cbn. set (P' := {| a_cols := a_cols pol; a_rows := _ |}).
  change (initial_state (set_policy e P')) with (initial_state e).
  pose proof Hpre as (TB & P & _ & HP & _ & Hrec)%preprocess_Ok.
  destruct (vstack_rows _ _ _ HP) as (HPc & HPr & _).
  set (prevd := default (azeros (length ll) (a_cols pol)) prev) in *.
  assert (length ll <= length (a_rows prevd)) as Hlen.
  { unfold prevd. destruct prev; cbn; [done|]. by rewrite length_replicate. }
  assert (forall r f, (Z.of_nat r + 1 < infer_len e)%Z ->
            policy_at P' r f = policy_at (policy e) r f) as Hat.
  { intros r f Hr. rewrite Hrec in Hr |- *. cbn in Hr |- *.
    unfold policy_at. rewrite HPc, HPr. cbn.
    destruct (decide (r < length (a_rows prevd))) as [Hlt|Hge].
    - by rewrite !lookup_app_l by done.
    - rewrite !lookup_app_r by lia. rewrite Hsame; [done|]. destruct final; lia. }
  rewrite loops_set_policy; [done|..].
  - intros t f Ht Hf Hne. unfold selected_slice. rewrite Hat; [done|lia].
  - intros t f Ht Hf Hcut. unfold selected_slice. rewrite Hat; [done|].
    rewrite Hrec in Hcut |- *. cbn in Hcut |- *. destruct final; lia.
Qed.
End UnusedRow.

Lemma last_policy_row_is_unused_witness :
  run_mmp_v2 [] B_swap [ll_flat] (policy_of [1%Q; 7%Q]) None None 3 false (1/4)%R false
  = run_mmp_v2 [] B_swap [ll_flat] (policy_of [1%Q; 0%Q]) None None 3 false (1/4)%R false.
Proof.
  apply last_policy_row_is_unused; [done|done| |done].
  intros [|r] Hr; [done|]. cbn in Hr. lia.
Defined.

Lemma wrap_action_selects n a :
  axis_index n (int_trunc (wrap_action n a)) = axis_index n (int_trunc a).
Proof.
  unfold wrap_action. destruct (axis_index n (int_trunc a)) as [u|err] eqn:Hu; [|done].
  pose proof (axis_index_Ok _ _ _ Hu) as Hlt.
  rewrite int_trunc_inject_Z. unfold axis_index.
  destruct (decide _); [|lia]. by rewrite Nat2Z.id.
Qed.

Lemma policy_at_wrapped (B0 : list ndarray3) P r f :
  policy_at (wrapped B0 P) r f =
  match policy_at P r f with
  | Ok a => Ok (wrap_action (shape2 (B0 !!! f)) a)
  | Raise err => Raise err
  end.
Proof.
  unfold policy_at, wrapped. cbn. rewrite list_lookup_fmap.
  destruct (a_rows P !! r) as [row|]; cbn; [|done].
  destruct (decide _); [|done]. rewrite list_lookup_imap.
  by destruct (row !! f).
Qed.

Lemma wrapped_azeros (B0 : list ndarray3) n c : wrapped B0 (azeros n c) = azeros n c.
Proof.
  unfold wrapped, azeros. cbn. f_equal. rewrite fmap_replicate. f_equal.
  apply list_eq. intros f. rewrite list_lookup_imap.
  destruct (replicate c 0%Q !! f) as [a|] eqn:Ha; [|done]. cbn.
  apply lookup_replicate in Ha as [-> _]. f_equal.
  unfold wrap_action, axis_index. change (int_trunc 0) with 0%Z.
  destruct (decide _); [done|]. destruct (decide _); [lia|done].
Qed.

Section Wrapped.
Context `{Maths}.

Lemma selected_slice_wrapped (B0 : list ndarray3) P T r f :
  shape2 T = shape2 (B0 !!! f) ->
  selected_slice (wrapped B0 P) T r f = selected_slice P T r f.
Proof.
  intros HT. unfold selected_slice. rewrite policy_at_wrapped.
  destruct (policy_at P r f) as [a|err]; cbn; [|done].
  unfold slice_action. by rewrite HT, wrap_action_selects.
Qed.

Lemma preprocess_wrapped A B0 ll pol prev pri gd tau0 final :
  preprocess A B0 ll (wrapped B0 pol) (wrapped B0 <$> prev) pri gd tau0 final =
  match preprocess A B0 ll pol prev pri gd tau0 final with
  | Ok e => Ok (set_policy e (wrapped B0 (policy e)))
  | Raise err => Raise err
  end.
Proof.
  unfold preprocess, get_model_dimensions. cbn. rewrite length_fmap.
  destruct (decide _); [done|].
  destruct (transposed_transitions B0) as [TB|err]; cbn; [|done].
  assert (match wrapped B0 <$> prev with
          | Some p => p
          | None => azeros (length ll) (a_cols pol)
          end
          = wrapped B0 (match prev with
                        | Some p => p
                        | None => azeros (length ll) (a_cols pol)
                        end)) as ->.
  { destruct prev; cbn; [done|]. by rewrite wrapped_azeros. }
  unfold vstack. cbn. destruct (decide _); [|done]. cbn.
  unfold wrapped. cbn. by rewrite fmap_app.
Qed.

(** X8.  An action entry counts from the end of its factor's action axis when
    it is negative: the call on a trajectory is the call on the
    trajectory in which every entry that selects a slice is replaced by the
    index of that slice. *)
Theorem negative_actions_count_from_the_end A B0 ll pol prev pri num_iter gd tau0 final :
  run_mmp_v2 A B0 ll (wrapped B0 pol) (wrapped B0 <$> prev) pri num_iter gd tau0 final
  = run_mmp_v2 A B0 ll pol prev pri num_iter gd tau0 final.
Proof.
  unfold run_mmp_v2. rewrite preprocess_wrapped.
  destruct (preprocess A B0 ll pol prev pri gd tau0 final) as [e|err] eqn:Hpre; [|done].
  cbn. change (initial_state (set_policy e _)) with (initial_state e).
  pose proof Hpre as (TB & P & HTB & _ & _ & Hrec)%preprocess_Ok.
  rewrite loops_set_policy; [done|..].
  - intros t f _ Hf _. apply selected_slice_wrapped. by rewrite Hrec.
  - intros t f _ Hf _. apply selected_slice_wrapped. rewrite Hrec in Hf |- *. cbn in *.
    by apply trans_B_shape2.
Qed.
End Wrapped.


(** With two actions, [-1] is action 1 and [-2] is action 0. *)
Lemma negative_actions_count_from_the_end_witness :
  run_mmp_v2 [] B_swap [ll_flat] (policy_of [1%Q; 0%Q]) (Some (policy_of [0%Q])) None
    2 false (1/4)%R false
  = run_mmp_v2 [] B_swap [ll_flat] (policy_of [(-1)%Q; 0%Q]) (Some (policy_of [(-2)%Q])) None
    2 false (1/4)%R false.
Proof.
  change (policy_of [1%Q; 0%Q]) with (wrapped B_swap (policy_of [(-1)%Q; 0%Q])).
  change (Some (policy_of [0%Q])) with (wrapped B_swap <$> Some (policy_of [(-2)%Q])).
  apply negative_actions_count_from_the_end.
Defined.

(** ** Exceptions, step size and helpers (lines 72-115) *)

Section FirstSweep.
Context `{Maths}.

Lemma selected_slice_outcome P T r f (k1 k2 : matrix -> result vec) :
  (forall M, exists v1 v2, k1 M = Ok v1 /\ k2 M = Ok v2) ->
  agree (fun _ _ => True) (a ← policy_at P r f; M ← slice_action T (int_trunc a); k1 M)
    (a ← policy_at P r f; M ← slice_action T (int_trunc a); k2 M).
Proof.
  intros Hk. destruct (policy_at P r f) as [a|err]; cbn; [|done].
  destruct (slice_action T (int_trunc a)) as [M|err]; cbn; [|done].
  by destruct (Hk M) as (v1 & v2 & -> & ->).
Qed.

(** Whether a visit returns, and what it raises, does not depend on the
    state. *)
Lemma visit_outcome e t f s1 s2 :
  agree (fun _ _ => True) (visit e t f s1) (visit e t f s2).
Proof.
  assert (agree (fun _ _ => True) (past_message e t f (qs_seq s1))
            (past_message e t f (qs_seq s2))) as Hpast.
  { unfold past_message, predecessor_message. destruct (decide _); [done|].
    apply selected_slice_outcome. intros M. by eexists _, _. }
  assert (agree (fun _ _ => True) (future_message e t f (qs_seq s1))
            (future_message e t f (qs_seq s2))) as Hfut.
  { unfold future_message, successor_message. destruct (decide _); [done|].
    apply selected_slice_outcome. intros M. by eexists _, _. }
  unfold visit. cbv zeta.
  destruct (past_message e t f (qs_seq s1)) as [p1|e1],
    (past_message e t f (qs_seq s2)) as [p2|e2]; cbn in *; try done.
  destruct (future_message e t f (qs_seq s1)) as [q1|e1],
    (future_message e t f (qs_seq s2)) as [q2|e2]; cbn in *; try done.
  destruct (grad_descent e); [destruct (decide _)|]; done.
Qed.

Lemma sweep_outcome e i j s1 s2 :
  agree (fun _ _ => True) (sweep e i s1) (sweep e j s2).
Proof.
  unfold sweep, for_range. apply for_each_agree; [|done].
  intros t u1 u2 _ _. unfold timestep, for_range.
  pose proof (for_each_agree (fun _ _ => True) (seq 0 (num_factors e))
                (visit e t) (visit e t) u1 u2
                (fun f v1 v2 _ _ => visit_outcome e t f v1 v2) I) as Hloop.
  destruct (for_each _ _ u1), (for_each _ _ u2); cbn in *; try done.
  by destruct (grad_descent e).
Qed.

(** X9.  An exception of the loops is an exception of the first sweep: with at
    least one iteration, the call raises what the call with one iteration
    raises, and returns when that one returns. *)
Theorem exceptions_surface_in_first_sweep A B0 ll pol prev pri num_iter gd tau0 final :
  0 < num_iter ->
  agree (fun _ _ => True)
    (run_mmp_v2 A B0 ll pol prev pri num_iter gd tau0 final)
    (run_mmp_v2 A B0 ll pol prev pri 1 gd tau0 final).
Proof.
  intros Hiter. unfold run_mmp_v2.
  destruct (preprocess A B0 ll pol prev pri gd tau0 final) as [e|err]; cbn; [|done].
  destruct num_iter as [|k]; [lia|]. unfold for_range.
  rewrite <- cons_seq. cbn.
  destruct (sweep e 0 (initial_state e)) as [s1|err] eqn:Hfirst; cbn; [|done].
  destruct (for_each_total (fun _ => True) (seq 1 k) (sweep e) s1) as (s2 & -> & _);
    [|done|done].
  intros itr s _ _. pose proof (sweep_outcome e itr 0 s (initial_state e)) as Hsweep.
  rewrite Hfirst in Hsweep. destruct (sweep e itr s) as [s'|]; [by exists s'|done].
Qed.
End FirstSweep.

Lemma exceptions_surface_in_first_sweep_witness :
  agree (fun _ _ => True)
    (run_mmp_v2 [] B_swap [ll_flat] (policy_of [2%Q; 0%Q]) None None 4 false (1/4)%R false)
    (run_mmp_v2 [] B_swap [ll_flat] (policy_of [2%Q; 0%Q]) None None 1 false (1/4)%R false).
Proof. apply exceptions_surface_in_first_sweep. lia. Defined.

Section StepSize.
Context `{Maths}.

Lemma preprocess_tau A B0 ll pol prev pri gd tau1 tau2 final :
  preprocess A B0 ll pol prev pri gd tau2 final =
  match preprocess A B0 ll pol prev pri gd tau1 final with
  | Ok e => Ok (set_tau e tau2)
  | Raise err => Raise err
  end.
Proof.
  unfold preprocess, get_model_dimensions. cbn. destruct (decide _); [done|].
  destruct (transposed_transitions B0); cbn; [|done].
  by destruct (vstack _ pol).
Qed.

(** X10.  The step size is only read by the gradient rule: without
    [grad_descent] the result does not depend on [tau]. *)
Theorem direct_rule_ignores_tau A B0 ll pol prev pri num_iter tau1 tau2 final :
  run_mmp_v2 A B0 ll pol prev pri num_iter false tau2 final
  = run_mmp_v2 A B0 ll pol prev pri num_iter false tau1 final.
Proof.
  unfold run_mmp_v2. rewrite (preprocess_tau _ _ _ _ _ _ _ tau1 tau2).
  destruct (preprocess A B0 ll pol prev pri false tau1 final) as [e|err] eqn:Hpre; [|done].
  cbn. change (initial_state (set_tau e tau2)) with (initial_state e).
  assert (grad_descent e = false) as Hgd.
  { by apply preprocess_Ok in Hpre as (TB & P & _ & _ & _ & ->). }
  unfold for_range.
  rewrite (for_each_ext _ (sweep (set_tau e tau2)) (sweep e)); [done|].
  intros itr s _. unfold sweep, for_range. cbn [infer_len set_tau]. apply for_each_ext.
  intros t s1 _. unfold timestep, for_range. cbn [num_factors grad_descent set_tau].
  rewrite (for_each_ext _ (visit (set_tau e tau2) t) (visit e t)); [done|].
  intros f s2 _. unfold visit. cbn [grad_descent set_tau]. by rewrite Hgd.
Qed.
End StepSize.

Section Helpers.
Variables M1 M2 : Maths.
Hypothesis Hsame : same_messages M1 M2.

Lemma transposed_transitions_same (B0 : list ndarray3) :
  @transposed_transitions M1 B0 = @transposed_transitions M2 B0.
Proof.
  destruct Hsame as (_ & Hnorm & _).
  induction B0 as [|Bf B0 IH]; [done|]. cbn. rewrite IH.
  assert (@transposed_transition M1 Bf = @transposed_transition M2 Bf) as ->; [|done].
  unfold transposed_transition, for_range. apply for_each_ext.
  intros u T _. by rewrite Hnorm.
Qed.

Lemma preprocess_same A B0 ll pol prev pri gd tau0 final :
  @preprocess M1 A B0 ll pol prev pri gd tau0 final
  = @preprocess M2 A B0 ll pol prev pri gd tau0 final.
Proof. unfold preprocess. by rewrite transposed_transitions_same. Qed.

Lemma visit_same e t f st : @visit M1 e t f st = @visit M2 e t f st.
Proof.
  destruct Hsame as (Hdot & _ & Hsoft).
  unfold visit, likelihood_message. rewrite Hdot.
  destruct (past_message e t f (qs_seq st)); cbn; [|done].
  destruct (future_message e t f (qs_seq st)); cbn; [|done].
  by rewrite !Hsoft.
Qed.

(** X11.  The free energy never feeds back into the beliefs: two helper sets
    that differ at most in [calc_free_energy] give the same beliefs, or the
    same exception, and with [grad_descent], where [calc_free_energy] is
    not called, the same [F] as well. *)
Theorem free_energy_never_feeds_back A B0 ll pol prev pri num_iter gd tau0 final :
  agree (fun r1 r2 => r1.1 = r2.1 /\ (gd = true -> r1.2 = r2.2))
    (@run_mmp_v2 M1 A B0 ll pol prev pri num_iter gd tau0 final)
    (@run_mmp_v2 M2 A B0 ll pol prev pri num_iter gd tau0 final).
Proof.
  unfold run_mmp_v2. rewrite preprocess_same.
  destruct (@preprocess M2 A B0 ll pol prev pri gd tau0 final) as [e|err] eqn:Hpre;
    cbn; [|done].
  assert (grad_descent e = gd) as Hgd.
  { by apply preprocess_Ok in Hpre as (TB & P & _ & _ & _ & ->). }
  set (R := fun s1 s2 : state => qs_seq s1 = qs_seq s2 /\ (gd = true -> F s1 = F s2)).
  assert (agree R (for_range num_iter (@sweep M1 e) (@initial_state e))
            (for_range num_iter (@sweep M2 e) (@initial_state e))) as Hloops.
  { unfold for_range. apply for_each_agree; [|done].
    intros itr s1 s2 _ HR. unfold sweep, for_range. apply for_each_agree; [|done].
    intros t u1 u2 _ [Hqs HF]. unfold timestep, for_range.
    assert (agree R (for_each (seq 0 (num_factors e)) (@visit M1 e t) u1)
              (for_each (seq 0 (num_factors e)) (@visit M2 e t) u2)) as Hvisits.
    { apply for_each_agree; [|done]. clear u1 u2 Hqs HF.
      intros f v1 v2 _ [Hqs HF]. rewrite visit_same.
      unfold visit. cbv zeta. rewrite Hqs.
      destruct (past_message e t f (qs_seq v2)); cbn; [|done].
      destruct (future_message e t f (qs_seq v2)); cbn; [|done].
      destruct (grad_descent e) eqn:Hg; [destruct (decide _)|]; cbn;
        (split; [done|]); intros Hgd'; rewrite ?HF by done; congruence. }
    destruct (for_each _ (@visit M1 e t) u1) as [w1|e1],
      (for_each _ (@visit M2 e t) u2) as [w2|e2]; cbn in *; try done.
    destruct Hvisits as [Hqs' HF']. rewrite Hgd.
    destruct gd; cbn; (split; [done|]); [done|congruence]. }
  destruct (for_range num_iter (@sweep M1 e) _) as [s1|e1],
    (for_range num_iter (@sweep M2 e) _) as [s2|e2]; cbn in *; done.
Qed.
End Helpers.

Lemma free_energy_never_feeds_back_witness :
  agree (fun r1 r2 => r1.1 = r2.1 /\ (true = true -> r1.2 = r2.2))
    (@run_mmp_v2 spec_maths
       [] B_swap [ll_flat] (policy_of [1%Q]) None None 1 true (1/4)%R false)
    (@run_mmp_v2 (with_free_energy spec_maths (fun _ _ _ _ => 1%R))
       [] B_swap [ll_flat] (policy_of [1%Q]) None None 1 true (1/4)%R false).
Proof.
  apply free_energy_never_feeds_back. by split_and!.
Defined.

(** ** Rejected arguments (lines 57-67) *)

Section Rejected.
Context `{Maths}.

Lemma transposed_transition_Raise Bf err :
  transposed_transition Bf = Raise err -> err = ValueError.
Proof.
  unfold transposed_transition, for_range.
  apply (for_each_Raise (fun err => err = ValueError)).
  intros u T err1 _. unfold assign_slice. destruct (decide _); [done|].
  by intros [= <-].
Qed.

Lemma transposed_transitions_Raise (B0 : list ndarray3) err :
  transposed_transitions B0 = Raise err -> err = ValueError.
Proof.
  induction B0 as [|Bf B0 IH]; [done|]. cbn.
  destruct (transposed_transition Bf) as [T|err1] eqn:HT; cbn.
  - destruct (transposed_transitions B0) as [Ts|err2]; cbn; [done|].
    intros [= <-]. by apply IH.
  - intros [= <-]. by eapply transposed_transition_Raise.
Qed.

(** Preprocessing raises nothing but [ValueError]. *)
Lemma preprocess_Raise A B0 ll pol prev pri gd tau0 final err :
  preprocess A B0 ll pol prev pri gd tau0 final = Raise err -> err = ValueError.
Proof.
  unfold preprocess, get_model_dimensions. cbn.
  destruct (decide _); [by intros [= <-]|].
  destruct (transposed_transitions B0) as [TB|err1] eqn:HTB; cbn.
  - unfold vstack. destruct (decide _); [done|]. by intros [= <-].
  - intros [= <-]. by eapply transposed_transitions_Raise.
Qed.

Lemma transposed_transition_not_square Bf :
  keeps_shape spm_norm ->
  shape0 Bf <> shape1 Bf -> 0 < shape2 Bf ->
  transposed_transition Bf = Raise ValueError.
Proof.
  intros Hnorm Hsq Hact. unfold transposed_transition, for_range.
  destruct (shape2 Bf) as [|n]; [lia|]. rewrite <- cons_seq. cbn.
  unfold assign_slice.
  destruct (Hnorm (transpose (slice Bf 0))) as [-> ->]. cbn.
  destruct (decide _) as [[? ?]|]; [congruence|done].
Qed.

(** X12.  A transition array that is not square in its two state axes and has
    an action is rejected when its transposed slices are assigned: the
    call raises [ValueError], whatever its other arguments. *)
Theorem non_square_transition_is_rejected A B0 ll pol prev pri num_iter gd tau0 final Bf :
  keeps_shape spm_norm ->
  Bf ∈ B0 -> shape0 Bf <> shape1 Bf -> 0 < shape2 Bf ->
  run_mmp_v2 A B0 ll pol prev pri num_iter gd tau0 final = Raise ValueError.
Proof.
  intros Hnorm Hin Hsq Hact.
  assert (transposed_transitions B0 = Raise ValueError) as HTB.
  { induction B0 as [|Bf' B0 IH]; [by apply elem_of_nil in Hin|].
    cbn. apply elem_of_cons in Hin as [<-|Hin].
    - by rewrite transposed_transition_not_square.
    - destruct (transposed_transition Bf') as [T|err] eqn:HT; cbn.
      + by rewrite IH.
      + f_equal. by eapply transposed_transition_Raise. }
  unfold run_mmp_v2, preprocess, get_model_dimensions. cbn.
  destruct (decide _); [done|]. by rewrite HTB.
Qed.

(** X13.  [prev_actions] of another width than [policy] cannot be stacked on it:
    the call raises [ValueError]. *)
Theorem prev_actions_width_is_checked A B0 ll pol P pri num_iter gd tau0 final :
  a_cols P <> a_cols pol ->
  run_mmp_v2 A B0 ll pol (Some P) pri num_iter gd tau0 final = Raise ValueError.
Proof.
  intros Hcols. unfold run_mmp_v2.
  destruct (preprocess A B0 ll pol (Some P) pri gd tau0 final) as [e|err] eqn:Hpre; cbn.
  - apply preprocess_Ok in Hpre as (TB & P' & _ & HP & _). cbn in HP.
    unfold vstack in HP. by destruct (decide _).
  - f_equal. by eapply preprocess_Raise.
Qed.
End Rejected.

Lemma non_square_transition_is_rejected_witness :
  run_mmp_v2 [] B_wide [ll_flat] (policy_of [0%Q]) None None 1 false (1/4)%R false
  = Raise ValueError.
Proof.
  apply (non_square_transition_is_rejected _ _ _ _ _ _ _ _ _ _ (B_wide !!! 0)).
  - apply spec_spm_norm_keeps_shape.
  - by left.
  - cbn. lia.
  - cbn. lia.
Defined.

Lemma prev_actions_width_is_checked_witness :
  run_mmp_v2 [] B_keep [ll_flat] (policy_of [0%Q])
    (Some (policy_two [(0%Q, 0%Q)])) None 1 false (1/4)%R false
  = Raise ValueError.
Proof. apply prev_actions_width_is_checked. cbn. lia. Defined.

Section TransposedSlices.
Context `{Maths}.

(** X14.  The loop of lines 61-62 fills [trans_B[f]] slice by slice without
    touching the slices it has set: for a [B[f]] that is square in its
    state axes, [trans_B[f]] gets the shape of [B[f]] and each of its
    action slices is [spm_norm] of the transposed slice of [B[f]]. *)
Theorem transposed_slices_are_normalised Bf :
  keeps_shape spm_norm -> shape0 Bf = shape1 Bf ->
  exists T,
    transposed_transition Bf = Ok T /\
    (shape0 T, shape1 T, shape2 T) = (shape0 Bf, shape1 Bf, shape2 Bf) /\
    forall u i j, u < shape2 Bf ->
      m_at (slice T u) i j = m_at (spm_norm (transpose (slice Bf u))) i j.
Proof.
  intros Hnorm Hsq.
  destruct (transposed_transition_Ok Hnorm Bf Hsq) as (T & HT & H0 & H1 & H2 & Hat).
  exists T. split_and!; [done| by rewrite H0, H1, H2 | done].
Qed.
End TransposedSlices.

Lemma transposed_slices_are_normalised_witness :
  exists T,
    transposed_transition (B_swap !!! 0) = Ok T /\
    (shape0 T, shape1 T, shape2 T) = (2, 2, 2).
Proof.
  destruct (transposed_slices_are_normalised (B_swap !!! 0))
    as (T & HT & Hshape & _); [apply spec_spm_norm_keeps_shape | reflexivity |].
  exists T. split; [exact HT | exact Hshape].
Defined.
